(** * cloud-foundation-project: the declared hosting topology

    A shallow embedding of [bin/cloud-foundation-project.ts]: the CDK
    constructs the file instantiates become records, the construct tree
    becomes an explicit state threaded through the [AleezaStack]
    constructor, and the properties of the configuration contract are
    proved about the tree the constructor builds. *)

From stdpp Require Import base strings gmap list sorting.
From Stdlib Require Import Ascii String ZArith.

Local Open Scope string_scope.
Local Open Scope Z_scope.
Local Open Scope list_scope.

(** ** Construct tree

    Every [new X(scope, id, props)] registers a child named [id] under
    [scope].  A construct is identified by its node path, the list of ids
    from the root ([App], the empty path) down to it. *)

Abbreviation ConstructPath := (list string).

(** A deploy-time attribute of a construct, such as [webAcl.attrArn]. *)
Inductive Token :=
| GetAtt (target : ConstructPath) (attribute : string).

#[global] Instance Token_eq_dec : EqDecision Token.
Proof. solve_decision. Defined.

Definition token_target (t : Token) : ConstructPath :=
  match t with GetAtt p _ => p end.

(** ** aws-cdk-lib (core) *)
Module cdk.

Inductive RemovalPolicy := DESTROY | RETAIN | SNAPSHOT | RETAIN_ON_UPDATE_OR_DELETE.

#[global] Instance RemovalPolicy_eq_dec : EqDecision RemovalPolicy.
Proof. solve_decision. Defined.

(** The options the entry point mentions for a stack; it passes none. *)
Record StackProps := {
  env : option (string * string);
  tags : list (string * string);
  stackName : option string
}.

#[global] Instance StackProps_eq_dec : EqDecision StackProps.
Proof. solve_decision. Defined.

End cdk.

(** ** aws-cdk-lib/aws-s3 *)
Module s3.

Inductive BucketEncryption := UNENCRYPTED | S3_MANAGED | KMS_MANAGED | KMS | DSSE_MANAGED | DSSE.

Inductive BucketAccessControl :=
| PRIVATE | PUBLIC_READ | PUBLIC_READ_WRITE | AUTHENTICATED_READ
| LOG_DELIVERY_WRITE | BUCKET_OWNER_READ | BUCKET_OWNER_FULL_CONTROL | AWS_EXEC_READ.

(** The four public-access-block flags of a bucket. *)
Record BlockPublicAccess := {
  blockPublicAcls : bool;
  blockPublicPolicy : bool;
  ignorePublicAcls : bool;
  restrictPublicBuckets : bool
}.

(** [BlockPublicAccess.BLOCK_ALL] and [BlockPublicAccess.BLOCK_ACLS],
    the two presets of the library. *)
Definition BLOCK_ALL : BlockPublicAccess :=
  {| blockPublicAcls := true; blockPublicPolicy := true;
     ignorePublicAcls := true; restrictPublicBuckets := true |}.

Definition BLOCK_ACLS : BlockPublicAccess :=
  {| blockPublicAcls := true; blockPublicPolicy := false;
     ignorePublicAcls := true; restrictPublicBuckets := false |}.

Definition all_flags_enabled (b : BlockPublicAccess) : bool :=
  blockPublicAcls b && blockPublicPolicy b && ignorePublicAcls b && restrictPublicBuckets b.

(** The properties [website_bucket] is created with. *)
Record BucketProps := {
  encryption : BucketEncryption;
  accessControl : BucketAccessControl;
  blockPublicAccess : BlockPublicAccess;
  removalPolicy : cdk.RemovalPolicy;
  autoDeleteObjects : bool;
  websiteIndexDocument : string;
  versioned : bool;
  enforceSSL : bool
}.

#[global] Instance BucketEncryption_eq_dec : EqDecision BucketEncryption.
Proof. solve_decision. Defined.
#[global] Instance BucketAccessControl_eq_dec : EqDecision BucketAccessControl.
Proof. solve_decision. Defined.
#[global] Instance BlockPublicAccess_eq_dec : EqDecision BlockPublicAccess.
Proof. solve_decision. Defined.
#[global] Instance BucketProps_eq_dec : EqDecision BucketProps.
Proof. solve_decision. Defined.

(** Encryption at rest is on for every mode but [UNENCRYPTED]. *)
Definition encrypted_at_rest (p : BucketProps) : bool :=
  match encryption p with UNENCRYPTED => false | _ => true end.

End s3.

(** ** path (Node.js) *)
Module path.

Definition sep : ascii := "/"%char.

(** Cut a string at every separator. *)
Fixpoint split (s : string) : list string :=
  match s with
  | EmptyString => [EmptyString]
  | String c rest =>
      if decide (c = sep) then EmptyString :: split rest
      else match split rest with
           | [] => [String c EmptyString]
           | seg :: segs => String c seg :: segs
           end
  end.

(** Resolve [.] and [..] and drop empty segments, left to right; [acc]
    holds the segments kept so far, last one first. *)
Fixpoint normalize_segments (abs : bool) (acc : list string) (segs : list string) : list string :=
  match segs with
  | [] => rev acc
  | seg :: rest =>
      if decide (seg = "") then normalize_segments abs acc rest
      else if decide (seg = ".") then normalize_segments abs acc rest
      else if decide (seg = "..") then
        match acc with
        | [] => normalize_segments abs (if abs then [] else [".."]) rest
        | top :: acc' =>
            if decide (top = "..") then normalize_segments abs (seg :: acc) rest
            else normalize_segments abs acc' rest
        end
      else normalize_segments abs (seg :: acc) rest
  end.

Fixpoint join_segments (segs : list string) : string :=
  match segs with
  | [] => ""
  | [seg] => seg
  | seg :: rest => seg +:+ "/" +:+ join_segments rest
  end.

Definition is_absolute (s : string) : bool :=
  match s with
  | String c _ => bool_decide (c = sep)
  | EmptyString => false
  end.

(** [path.join(...parts)]: the non-empty parts joined by the separator,
    then normalized. *)
Definition join (parts : list string) : string :=
  let parts := filter (λ p, p ≠ "") parts in
  let abs := match parts with p :: _ => is_absolute p | [] => false end in
  let segs := normalize_segments abs [] (parts ≫= split) in
  match segs, abs with
  | [], false => "."
  | _, false => join_segments segs
  | _, true => "/" +:+ join_segments segs
  end.

(** [path.dirname] of a relative file name. *)
Definition dirname (file : string) : string :=
  match removelast (split file) with
  | [] => "."
  | segs => join_segments segs
  end.

End path.

(** ** aws-cdk-lib/aws-s3-deployment *)
Module s3_deployment.

(** [Source.asset(p)]: a local directory staged for upload. *)
Module Source.
Inductive ISource := asset (path : string).
#[global] Instance ISource_eq_dec : EqDecision ISource.
Proof. solve_decision. Defined.
End Source.

Record BucketDeploymentProps := {
  destinationBucket : ConstructPath;
  sources : list Source.ISource;
  prune : bool;
  retainOnDelete : bool
}.

#[global] Instance BucketDeploymentProps_eq_dec : EqDecision BucketDeploymentProps.
Proof. solve_decision. Defined.

End s3_deployment.

(** ** aws-cdk-lib/aws-wafv2 *)
Module wafv2.

Inductive DefaultAction := allow | block.
Inductive OverrideAction := none | count.

Module VisibilityConfig.
Record t := {
  cloudWatchMetricsEnabled : bool;
  metricName : string;
  sampledRequestsEnabled : bool
}.
End VisibilityConfig.

Module ManagedRuleGroupStatement.
Record t := { vendorName : string; name : string }.
End ManagedRuleGroupStatement.

Module Statement.
Inductive t := managedRuleGroupStatement (s : ManagedRuleGroupStatement.t).
End Statement.

Module Rule.
Record t := {
  name : string;
  priority : Z;
  statement : Statement.t;
  overrideAction : OverrideAction;
  visibilityConfig : VisibilityConfig.t
}.
End Rule.

Record CfnWebACLProps := {
  scope : string;
  defaultAction : DefaultAction;
  visibilityConfig : VisibilityConfig.t;
  rules : list Rule.t
}.

#[global] Instance DefaultAction_eq_dec : EqDecision DefaultAction.
Proof. solve_decision. Defined.
#[global] Instance OverrideAction_eq_dec : EqDecision OverrideAction.
Proof. solve_decision. Defined.
#[global] Instance VisibilityConfig_eq_dec : EqDecision VisibilityConfig.t.
Proof. solve_decision. Defined.
#[global] Instance ManagedRuleGroupStatement_eq_dec : EqDecision ManagedRuleGroupStatement.t.
Proof. solve_decision. Defined.
#[global] Instance Statement_eq_dec : EqDecision Statement.t.
Proof. solve_decision. Defined.
#[global] Instance Rule_eq_dec : EqDecision Rule.t.
Proof. solve_decision. Defined.
#[global] Instance CfnWebACLProps_eq_dec : EqDecision CfnWebACLProps.
Proof. solve_decision. Defined.

(** [webAcl.attrArn] *)
Definition attrArn (webAcl : ConstructPath) : Token := GetAtt webAcl "Arn".

End wafv2.

(** ** aws-cdk-lib/aws-cloudfront-origins *)
Module cf_origins.

Module S3BucketOrigin.
(** How the distribution is allowed to read the bucket. *)
Inductive t :=
| withOriginAccessControl (bucket : ConstructPath)
| withOriginAccessIdentity (bucket : ConstructPath)
| withBucketDefaults (bucket : ConstructPath).

#[global] Instance t_eq_dec : EqDecision t.
Proof. solve_decision. Defined.

Definition bucket_of (o : t) : ConstructPath :=
  match o with
  | withOriginAccessControl b | withOriginAccessIdentity b | withBucketDefaults b => b
  end.
End S3BucketOrigin.

End cf_origins.

(** ** aws-cdk-lib/aws-cloudfront *)
Module cloudfront.

Record BehaviorOptions := { origin : cf_origins.S3BucketOrigin.t }.

Record DistributionProps := {
  defaultRootObject : string;
  defaultBehavior : BehaviorOptions;
  enableLogging : bool;
  webAclId : Token
}.

#[global] Instance BehaviorOptions_eq_dec : EqDecision BehaviorOptions.
Proof. solve_decision. Defined.
#[global] Instance DistributionProps_eq_dec : EqDecision DistributionProps.
Proof. solve_decision. Defined.

End cloudfront.

(** ** The declared resource graph *)

Inductive Resource :=
| Stack (props : option cdk.StackProps)
| Bucket (props : s3.BucketProps)
| BucketDeployment (props : s3_deployment.BucketDeploymentProps)
| CfnWebACL (props : wafv2.CfnWebACLProps)
| Distribution (props : cloudfront.DistributionProps).

#[global] Instance Resource_eq_dec : EqDecision Resource.
Proof. solve_decision. Defined.

(** The constructs of an app, in the order they were created: those the
    source creates itself.  What a library construct creates inside itself
    (the log bucket of a distribution with logging enabled, the handler of a
    deployment) is not part of the tree. *)
Definition Tree := list (ConstructPath * Resource).

Definition paths (t : Tree) : list ConstructPath := t.*1.

(** The construct registered at a path, if any. *)
Fixpoint resolve (p : ConstructPath) (t : Tree) : option Resource :=
  match t with
  | [] => None
  | (q, r) :: rest => if decide (q = p) then Some r else resolve p rest
  end.

(** ** Construction as a state-and-error computation *)

Inductive Result (A : Type) :=
| Ok (a : A)
| Throw (msg : string).
Arguments Ok {A} a.
Arguments Throw {A} msg.

Definition Synth (A : Type) : Type := Tree → Result (A * Tree).

Definition ret {A} (a : A) : Synth A := λ t, Ok (a, t).

Definition bind {A B} (m : Synth A) (k : A → Synth B) : Synth B :=
  λ t, match m t with
       | Ok (a, t') => k a t'
       | Throw msg => Throw msg
       end.

Notation "'let*' x ':=' m 'in' k" := (bind m (λ x, k))
  (at level 10, x name, m at level 100, k at level 200, only parsing).

(** The name a construct is registered under: the path separator in an
    id is replaced by two dashes. *)
Fixpoint sanitizeId (id : string) : string :=
  match id with
  | EmptyString => EmptyString
  | String c rest =>
      if decide (c = path.sep) then String "-" (String "-" (sanitizeId rest))
      else String c (sanitizeId rest)
  end.

(** The class of a construct of the tree, as an error message names it: a
    stack of the tree is an instance of [AleezaStack], the one stack class
    of the file. *)
Definition class_name (r : Resource) : string :=
  match r with
  | Stack _ => "AleezaStack"
  | Bucket _ => "Bucket"
  | BucketDeployment _ => "BucketDeployment"
  | CfnWebACL _ => "CfnWebACL"
  | Distribution _ => "Distribution"
  end.

(** How an error message names a scope: its class, then its id in brackets
    unless the id is empty.  The root is the [App] the entry point creates;
    a scope the tree does not hold is named as a bare construct. *)
Definition host_description (scope : ConstructPath) (t : Tree) : string :=
  match scope with
  | [] => "App"
  | _ =>
      match resolve scope t with
      | Some r => class_name r
      | None => "Construct"
      end +:+ " [" +:+ List.last scope "" +:+ "]"
  end.

(** [new X(scope, id, props)]: the construct is registered under its
    sanitized id, and a second child of that name under the same scope is
    refused.  The tree holds the constructs the source names; the further
    checks of the library classes (an empty id, the pattern of a stack name,
    the presence of an asset directory) are not part of this function. *)
Definition new_construct (scope : ConstructPath) (id : string) (r : Resource) : Synth ConstructPath :=
  λ t,
    let p := scope ++ [sanitizeId id] in
    if decide (p ∈ paths t)
    then Throw ("There is already a Construct with name '" +:+ sanitizeId id
                +:+ "' in " +:+ host_description scope t)
    else Ok (p, t ++ [(p, r)]).

(** ** [AleezaStack] *)

Definition website_bucket_props : s3.BucketProps :=
  {| s3.encryption := s3.S3_MANAGED;
     s3.accessControl := s3.PRIVATE;
     s3.blockPublicAccess := s3.BLOCK_ALL;
     s3.removalPolicy := cdk.DESTROY;
     s3.autoDeleteObjects := true;
     s3.websiteIndexDocument := "index.html";
     s3.versioned := true;
     s3.enforceSSL := true |}.

Definition webAcl_props : wafv2.CfnWebACLProps :=
  {| wafv2.scope := "CLOUDFRONT";
     wafv2.defaultAction := wafv2.allow;
     wafv2.visibilityConfig :=
       {| wafv2.VisibilityConfig.cloudWatchMetricsEnabled := true;
          wafv2.VisibilityConfig.metricName := "WebsiteACL";
          wafv2.VisibilityConfig.sampledRequestsEnabled := true |};
     wafv2.rules := [
       {| wafv2.Rule.name := "AWS-AWSManagedRulesCommonRuleSet";
          wafv2.Rule.priority := 1;
          wafv2.Rule.statement :=
            wafv2.Statement.managedRuleGroupStatement
              {| wafv2.ManagedRuleGroupStatement.vendorName := "AWS";
                 wafv2.ManagedRuleGroupStatement.name := "AWSManagedRulesCommonRuleSet" |};
          wafv2.Rule.overrideAction := wafv2.none;
          wafv2.Rule.visibilityConfig :=
            {| wafv2.VisibilityConfig.cloudWatchMetricsEnabled := true;
               wafv2.VisibilityConfig.metricName := "CommonRuleSet";
               wafv2.VisibilityConfig.sampledRequestsEnabled := true |} |};
       {| wafv2.Rule.name := "AWS-AWSManagedRulesAnonymousIpList";
          wafv2.Rule.priority := 2;
          wafv2.Rule.statement :=
            wafv2.Statement.managedRuleGroupStatement
              {| wafv2.ManagedRuleGroupStatement.vendorName := "AWS";
                 wafv2.ManagedRuleGroupStatement.name := "AWSManagedRulesAnonymousIpList" |};
          wafv2.Rule.overrideAction := wafv2.none;
          wafv2.Rule.visibilityConfig :=
            {| wafv2.VisibilityConfig.cloudWatchMetricsEnabled := true;
               wafv2.VisibilityConfig.metricName := "AnonymousIpList";
               wafv2.VisibilityConfig.sampledRequestsEnabled := true |} |};
       {| wafv2.Rule.name := "AWS-AWSManagedRulesAmazonIpReputationList";
          wafv2.Rule.priority := 3;
          wafv2.Rule.statement :=
            wafv2.Statement.managedRuleGroupStatement
              {| wafv2.ManagedRuleGroupStatement.vendorName := "AWS";
                 wafv2.ManagedRuleGroupStatement.name := "AWSManagedRulesAmazonIpReputationList" |};
          wafv2.Rule.overrideAction := wafv2.none;
          wafv2.Rule.visibilityConfig :=
            {| wafv2.VisibilityConfig.cloudWatchMetricsEnabled := true;
               wafv2.VisibilityConfig.metricName := "AmazonIpReputationList";
               wafv2.VisibilityConfig.sampledRequestsEnabled := true |} |};
       {| wafv2.Rule.name := "AWS-AWSManagedRulesKnownBadInputsRuleSet";
          wafv2.Rule.priority := 4;
          wafv2.Rule.statement :=
            wafv2.Statement.managedRuleGroupStatement
              {| wafv2.ManagedRuleGroupStatement.vendorName := "AWS";
                 wafv2.ManagedRuleGroupStatement.name := "AWSManagedRulesKnownBadInputsRuleSet" |};
          wafv2.Rule.overrideAction := wafv2.none;
          wafv2.Rule.visibilityConfig :=
            {| wafv2.VisibilityConfig.cloudWatchMetricsEnabled := true;
               wafv2.VisibilityConfig.metricName := "KnownBadInputsRuleSet";
               wafv2.VisibilityConfig.sampledRequestsEnabled := true |} |};
       {| wafv2.Rule.name := "AWS-AWSManagedRulesSQLiRuleSet";
          wafv2.Rule.priority := 5;
          wafv2.Rule.statement :=
            wafv2.Statement.managedRuleGroupStatement
              {| wafv2.ManagedRuleGroupStatement.vendorName := "AWS";
                 wafv2.ManagedRuleGroupStatement.name := "AWSManagedRulesSQLiRuleSet" |};
          wafv2.Rule.overrideAction := wafv2.none;
          wafv2.Rule.visibilityConfig :=
            {| wafv2.VisibilityConfig.cloudWatchMetricsEnabled := true;
               wafv2.VisibilityConfig.metricName := "SQLiRuleSet";
               wafv2.VisibilityConfig.sampledRequestsEnabled := true |} |} ] |}.

Definition website_files_props (website_bucket : ConstructPath) (__dirname : string)
    : s3_deployment.BucketDeploymentProps :=
  {| s3_deployment.destinationBucket := website_bucket;
     s3_deployment.sources :=
       [ s3_deployment.Source.asset (path.join [__dirname; ".."; "dist"]) ];
     s3_deployment.prune := true;
     s3_deployment.retainOnDelete := true |}.

Definition distribution_props (website_bucket webAcl : ConstructPath)
    : cloudfront.DistributionProps :=
  {| cloudfront.defaultRootObject := "index.html";
     cloudfront.defaultBehavior :=
       {| cloudfront.origin :=
            cf_origins.S3BucketOrigin.withOriginAccessControl website_bucket |};
     cloudfront.enableLogging := true;
     cloudfront.webAclId := wafv2.attrArn webAcl |}.

(** The constructor.  [__dirname] is the directory of the source file. *)
Definition AleezaStack (scope : ConstructPath) (id : string)
    (props : option cdk.StackProps) (__dirname : string) : Synth ConstructPath :=
  let* this := new_construct scope id (Stack props) in
  let* website_bucket :=
    new_construct this "WebsiteBucket" (Bucket website_bucket_props) in
  let* _ :=
    new_construct this "WebsiteFiles"
      (BucketDeployment (website_files_props website_bucket __dirname)) in
  let* webAcl := new_construct this "WebsiteACL" (CfnWebACL webAcl_props) in
  let* distribution :=
    new_construct this "WebsiteDistribution"
      (Distribution (distribution_props website_bucket webAcl)) in
  ret this.

(** Synthesis: a fresh [App] (the empty tree, root path [[]]) in which the
    stack is instantiated once, the way the entry point instantiates its
    stack; the result is the declared resource graph. *)
Definition synth (id : string) (props : option cdk.StackProps) (__dirname : string) : Result Tree :=
  match AleezaStack [] id props __dirname [] with
  | Ok (_, t) => Ok t
  | Throw msg => Throw msg
  end.

(** ** Reading the graph *)

Definition buckets (g : Tree) : list (ConstructPath * s3.BucketProps) :=
  omap (λ n, match n.2 with Bucket b => Some (n.1, b) | _ => None end) g.

Definition deployments (g : Tree) : list (ConstructPath * s3_deployment.BucketDeploymentProps) :=
  omap (λ n, match n.2 with BucketDeployment b => Some (n.1, b) | _ => None end) g.

Definition web_acls (g : Tree) : list (ConstructPath * wafv2.CfnWebACLProps) :=
  omap (λ n, match n.2 with CfnWebACL a => Some (n.1, a) | _ => None end) g.

Definition distributions (g : Tree) : list (ConstructPath * cloudfront.DistributionProps) :=
  omap (λ n, match n.2 with Distribution d => Some (n.1, d) | _ => None end) g.

(** The constructs a resource refers to, and so depends on. *)
Definition references (r : Resource) : list ConstructPath :=
  match r with
  | BucketDeployment s => [s3_deployment.destinationBucket s]
  | Distribution d =>
      [ cf_origins.S3BucketOrigin.bucket_of (cloudfront.origin (cloudfront.defaultBehavior d));
        token_target (cloudfront.webAclId d) ]
  | Stack _ | Bucket _ | CfnWebACL _ => []
  end.

(** ** The entry point and the files of the repository *)
Module entry.

Inductive Binding :=
| namespace (alias : string)          (* import * as alias from ... *)
| named (names : list string).        (* import { names } from ... *)

Record Import := { binding : Binding; specifier : string }.

(** What matters of a TypeScript file here: its imports, the classes it
    defines and exports, and the classes its top-level statements
    instantiate. *)
Record SourceFile := {
  imports : list Import;
  classes : list string;
  exports : list string;
  instantiates : list string
}.

Definition file_name : string := "bin/cloud-foundation-project.ts".

Definition source : SourceFile :=
  {| imports :=
       [ {| binding := namespace "cdk"; specifier := "aws-cdk-lib" |};
         {| binding := named ["CloudFoundationProjectStack"];
            specifier := "../lib/cloud-foundation-project-stack" |};
         {| binding := namespace "cdk"; specifier := "aws-cdk-lib" |};
         {| binding := namespace "s3"; specifier := "aws-cdk-lib/aws-s3" |};
         {| binding := namespace "s3_deployment"; specifier := "aws-cdk-lib/aws-s3-deployment" |};
         {| binding := namespace "cloudfront"; specifier := "aws-cdk-lib/aws-cloudfront" |};
         {| binding := namespace "cf_origins"; specifier := "aws-cdk-lib/aws-cloudfront-origins" |};
         {| binding := namespace "wafv2"; specifier := "aws-cdk-lib/aws-wafv2" |};
         {| binding := named ["Construct"]; specifier := "constructs" |};
         {| binding := namespace "path"; specifier := "path" |} ];
     classes := ["AleezaStack"];
     exports := ["AleezaStack"];
     instantiates := ["cdk.App"; "CloudFoundationProjectStack"] |}.

(** The files of the repository, relative to its root. *)
Definition repository_files : list string :=
  [ "README.md"; "bin/cloud-foundation-project.ts"; "dist/index.html" ].

(** The TypeScript modules among them. *)
Definition repository_modules : gmap string SourceFile :=
  {[ file_name := source ]}.

Definition is_relative (spec : string) : bool :=
  bool_decide (String.prefix "./" spec = true ∨ String.prefix "../" spec = true).

Definition extensions : list string := [".ts"; ".tsx"; ".d.ts"; ".js"; ".jsx"].

(** The files a relative specifier may stand for: the path with one of
    the extensions, then an index file in a directory of that name. *)
Definition candidates (base : string) : list string :=
  ((λ e, base +:+ e) <$> extensions) ++ ((λ e, base +:+ "/index" +:+ e) <$> extensions).

Inductive Resolution :=
| InRepository (file : string)
| Package (name : string)
| Unresolved.

Definition resolve_module (files : list string) (importer spec : string) : Resolution :=
  if is_relative spec then
    let base := path.join [path.dirname importer; spec] in
    match list_find (λ c, c ∈ files) (candidates base) with
    | Some (_, file) => InRepository file
    | None => Unresolved
    end
  else Package spec.

(** The import of a file that binds a name, if any. *)
Definition importing (f : SourceFile) (name : string) : option Import :=
  find
    (λ i, match binding i with
          | named names => bool_decide (name ∈ names)
          | namespace _ => false
          end) (imports f).

(** The file of the repository that defines the class a file calls
    [name]: the file itself, or the module its import resolves to. *)
Definition class_definition (files : list string) (modules : gmap string SourceFile)
    (importer name : string) : option string :=
  f ← modules !! importer;
  if decide (name ∈ classes f) then Some importer
  else
    i ← importing f name;
    match resolve_module files importer (specifier i) with
    | InRepository file =>
        m ← modules !! file;
        if decide (name ∈ exports m) then Some file else None
    | Package _ | Unresolved => None
    end.

(** Every class defined by a module of the repository. *)
Definition defined_classes (modules : gmap string SourceFile) : list string :=
  map_to_list modules ≫= (λ kv, classes kv.2).

End entry.

(** ** The provider side

    What the provisioning engine and the cloud services do with the
    declaration is not code of this repository.  The definitions of this
    part follow the specification's description of that behaviour. *)

(** *** Request filtering by the policy set *)
Module waf.

Inductive Verdict := Allowed | Blocked.

Definition priority_le (r1 r2 : wafv2.Rule.t) : Prop :=
  wafv2.Rule.priority r1 ≤ wafv2.Rule.priority r2.

#[global] Instance priority_le_dec : RelDecision priority_le.
Proof. intros r1 r2. unfold priority_le. apply _. Defined.

(** Modelled from the spec: the order in which the service evaluates the
    rules of a policy set, absent from the repository.  Section 4.3:
    rules are applied in ascending priority order. *)
Definition evaluation_order (rules : list wafv2.Rule.t) : list wafv2.Rule.t :=
  merge_sort priority_le rules.

Section Evaluation.
Context {Request : Type}.

(** What a managed rule group, named by vendor and name, decides about
    a request; [None] when none of its rules terminates. *)
Variable managed_group : string → string → Request → option Verdict.

Definition group_decision (r : wafv2.Rule.t) (req : Request) : option Verdict :=
  match wafv2.Rule.statement r with
  | wafv2.Statement.managedRuleGroupStatement s =>
      managed_group (wafv2.ManagedRuleGroupStatement.vendorName s)
                    (wafv2.ManagedRuleGroupStatement.name s) req
  end.

(** Modelled from the spec: the decision of one rule, absent from the
    repository.  Section 4.3: a match is governed by the rule's own
    override action; [none] keeps the group's decision, [count] only
    counts the match. *)
Definition rule_decision (r : wafv2.Rule.t) (req : Request) : option Verdict :=
  match wafv2.Rule.overrideAction r with
  | wafv2.none => group_decision r req
  | wafv2.count => None
  end.

(** Modelled from the spec: the search for the first rule that decides,
    absent from the repository.  Section 4.3: first match. *)
Fixpoint first_match (rules : list wafv2.Rule.t) (req : Request)
    : option (wafv2.Rule.t * Verdict) :=
  match rules with
  | [] => None
  | r :: rest =>
      match rule_decision r req with
      | Some v => Some (r, v)
      | None => first_match rest req
      end
  end.

Definition default_verdict (a : wafv2.DefaultAction) : Verdict :=
  match a with wafv2.allow => Allowed | wafv2.block => Blocked end.

(** Modelled from the spec: the evaluation of a request, absent from
    the repository.  Section 4.3: first match in ascending priority
    order, the default action when no rule matches. *)
Definition evaluate (acl : wafv2.CfnWebACLProps) (req : Request) : Verdict :=
  match first_match (evaluation_order (wafv2.rules acl)) req with
  | Some (_, v) => v
  | None => default_verdict (wafv2.defaultAction acl)
  end.

End Evaluation.

End waf.

(** *** Buckets and their objects *)

(** The deployed buckets, by the construct that declares them, each with
    its objects by key. *)
Abbreviation Objects := (gmap string string).
Abbreviation Cloud := (gmap ConstructPath (gmap string string)).

Module sync.

(** Modelled from the spec: the upload of the Asset Sync Step, absent from
    the repository.  Section 4.2: the local directory is synchronized into
    the bucket; pruning removes remote objects with no local
    counterpart. *)
Definition upload (prune : bool) (local remote : Objects) : Objects :=
  let merged := local ∪ remote in
  if prune then filter (λ kv, is_Some (local !! kv.1)) merged else merged.

(** Modelled from the spec: one provisioning run of a declared step, absent
    from the repository.  Section 2: the step reconciles the local build
    output into the Storage Resource on every provisioning run. *)
Definition run (step : s3_deployment.BucketDeploymentProps) (local : Objects)
    (cloud : Cloud) : Cloud :=
  alter (upload (s3_deployment.prune step) local)
        (s3_deployment.destinationBucket step) cloud.

(** Modelled from the spec: the removal of the step from the declaration,
    absent from the repository.  Section 4.2: retention prevents deletion
    of the uploaded content. *)
Definition remove (step : s3_deployment.BucketDeploymentProps) (cloud : Cloud) : Cloud :=
  if s3_deployment.retainOnDelete step then cloud
  else alter (λ _, ∅) (s3_deployment.destinationBucket step) cloud.

End sync.

Module teardown.

(** Modelled from the spec: the deletion of one resource by an explicit
    teardown, absent from the repository.  Section 3: destroyed subject to
    each resource's retention flag.  A bucket that is not retained is
    deleted when it is empty or when its objects are deleted with it. *)
Definition delete_resource (p : ConstructPath) (r : Resource) (cloud : Cloud) : Cloud :=
  match r with
  | Bucket b =>
      match s3.removalPolicy b, cloud !! p with
      | cdk.DESTROY, Some objects =>
          if s3.autoDeleteObjects b || bool_decide (objects = ∅)
          then delete p cloud
          else cloud
      | _, _ => cloud
      end
  | BucketDeployment step => sync.remove step cloud
  | Stack _ | CfnWebACL _ | Distribution _ => cloud
  end.

(** Modelled from the spec: an explicit teardown, absent from the
    repository.  Section 3: entities are destroyed only by an explicit
    teardown invocation.  Resources are deleted in the reverse of their
    creation order. *)
Definition destroy (g : Tree) (cloud : Cloud) : Cloud :=
  foldr (λ n c, delete_resource n.1 n.2 c) cloud g.

End teardown.

(** *** Access to a bucket *)
Module access.

Inductive Requester :=
| Anonymous
| ThroughDistribution (d : ConstructPath).

Definition public_acl (a : s3.BucketAccessControl) : bool :=
  match a with
  | s3.PUBLIC_READ | s3.PUBLIC_READ_WRITE => true
  | _ => false
  end.

(** Modelled from the spec: who may read a bucket, absent from the
    repository.  Glossary, scoped access credential: fetch access is
    restricted to the distribution that holds it.  A public ACL opens the
    bucket to everyone unless the ACL flags block it. *)
Definition may_read (g : Tree) (who : Requester) (b : ConstructPath) : bool :=
  match resolve b g with
  | Some (Bucket props) =>
      match who with
      | Anonymous =>
          public_acl (s3.accessControl props)
          && negb (s3.blockPublicAcls (s3.blockPublicAccess props)
                   || s3.ignorePublicAcls (s3.blockPublicAccess props))
      | ThroughDistribution d =>
          match resolve d g with
          | Some (Distribution dp) =>
              bool_decide
                (cloudfront.origin (cloudfront.defaultBehavior dp)
                 = cf_origins.S3BucketOrigin.withOriginAccessControl b)
          | _ => false
          end
      end
  | _ => false
  end.

End access.

(** *** Provisioning order and change sets *)
Module engine.

(** Modelled from the spec: one step of the provisioning engine, absent
    from the repository.  Section 2: the engine resolves dependencies, so a
    resource is created once everything it refers to exists.  The state is
    the list of constructs created so far, oldest first. *)
Inductive step (g : Tree) : list ConstructPath → list ConstructPath → Prop :=
| create created p r :
    (p, r) ∈ g →
    p ∉ created →
    (∀ q, q ∈ references r → q ∈ created) →
    step g created (created ++ [p]).

(** Modelled from the spec: the states a provisioning run goes through,
    absent from the repository.  Section 3: all entities are created by a
    single provisioning invocation, here starting from nothing. *)
Definition reachable (g : Tree) (created : list ConstructPath) : Prop :=
  rtc (step g) [] created.

(** [a] was created before [b]. *)
Definition before (a b : ConstructPath) (created : list ConstructPath) : Prop :=
  ∃ l1 l2, created = l1 ++ b :: l2 ∧ a ∈ l1.

Inductive Change :=
| Added (p : ConstructPath)
| Removed (p : ConstructPath)
| Modified (p : ConstructPath).

(** Modelled from the spec: the diff of declared against deployed state,
    absent from the repository.  Section 3: invocations diff declared
    versus actual state. *)
Definition diff (deployed declared : Tree) : list Change :=
  omap (λ n, match resolve n.1 declared with
             | None => Some (Removed n.1)
             | Some _ => None
             end) deployed
  ++ omap (λ n, match resolve n.1 deployed with
                | None => Some (Added n.1)
                | Some r => if decide (r = n.2) then None else Some (Modified n.1)
                end) declared.

End engine.

(** ** The local file system and the staging of assets *)

(** The directories of the machine that synthesizes and deploys, each with
    its files by name. *)
Abbreviation FileSystem := (gmap string (gmap string string)).

Module assets.

(** Modelled from the spec: the reading of a source directory, absent from
    the repository.  Section 6: the local build-output directory is a
    conventional path read by the Asset Sync Step.  A directory that does
    not exist cannot be staged. *)
Definition read (fs : FileSystem) (src : s3_deployment.Source.ISource) : Result Objects :=
  match src with
  | s3_deployment.Source.asset dir =>
      match fs !! dir with
      | Some files => Ok files
      | None => Throw ("Cannot find asset at " +:+ dir)
      end
  end.

(** Modelled from the spec: the staging of the sources of a step, absent
    from the repository.  Section 3: the step has a source directory
    reference; with several sources a later one overrides an earlier. *)
Fixpoint stage (fs : FileSystem) (sources : list s3_deployment.Source.ISource)
    : Result Objects :=
  match sources with
  | [] => Ok ∅
  | src :: rest =>
      match read fs src, stage fs rest with
      | Ok files, Ok later => Ok (later ∪ files)
      | Throw msg, _ | _, Throw msg => Throw msg
      end
  end.

(** Modelled from the spec: one provisioning run of a declared step from
    the file system, absent from the repository.  Section 2: the step
    reconciles the local build output into the Storage Resource. *)
Definition deploy (fs : FileSystem) (step : s3_deployment.BucketDeploymentProps)
    (cloud : Cloud) : Result Cloud :=
  match stage fs (s3_deployment.sources step) with
  | Ok local => Ok (sync.run step local cloud)
  | Throw msg => Throw msg
  end.

(** What a synthesis hands to the engine: the declared graph and, for
    every sync step, the files staged from its sources.  The staged files
    stand for the content hash by which the engine tells one asset from
    another. *)
Record Assembly := {
  graph : Tree;
  staged : list (ConstructPath * Objects)
}.

Fixpoint stage_steps (fs : FileSystem)
    (steps : list (ConstructPath * s3_deployment.BucketDeploymentProps))
    : Result (list (ConstructPath * Objects)) :=
  match steps with
  | [] => Ok []
  | (p, step) :: rest =>
      match stage fs (s3_deployment.sources step), stage_steps fs rest with
      | Ok files, Ok more => Ok ((p, files) :: more)
      | Throw msg, _ | _, Throw msg => Throw msg
      end
  end.

(** Synthesis on a machine: the graph of [synth], with the assets of its
    sync steps staged from the file system. *)
Definition assemble (fs : FileSystem) (id : string) (props : option cdk.StackProps)
    (__dirname : string) : Result Assembly :=
  match synth id props __dirname with
  | Ok g =>
      match stage_steps fs (deployments g) with
      | Ok files => Ok {| graph := g; staged := files |}
      | Throw msg => Throw msg
      end
  | Throw msg => Throw msg
  end.

Fixpoint staged_at (p : ConstructPath) (l : list (ConstructPath * Objects)) : option Objects :=
  match l with
  | [] => None
  | (q, files) :: rest => if decide (q = p) then Some files else staged_at p rest
  end.

(** Modelled from the spec: the diff of a declared assembly against the
    deployed one, absent from the repository.  Section 3: invocations diff
    declared versus actual state.  A step whose staged files changed is
    modified. *)
Definition diff (deployed declared : Assembly) : list engine.Change :=
  engine.diff (graph deployed) (graph declared)
  ++ omap (λ n, match staged_at n.1 (staged deployed) with
                | Some files =>
                    if decide (files = n.2) then None else Some (engine.Modified n.1)
                | None => None
                end) (staged declared).

End assets.

(** ** What a run of the constructor registers, and what a file binds *)

(** The paths of a stack and of the four children its constructor gives it. *)
Definition stack_paths (this : ConstructPath) : list ConstructPath :=
  [ this;
    this ++ ["WebsiteBucket"];
    this ++ ["WebsiteFiles"];
    this ++ ["WebsiteACL"];
    this ++ ["WebsiteDistribution"] ].

(** A directory name that needs no normalization: no separator in it,
    not empty, not [.] and not [..]. *)
Definition plain_segment (s : string) : Prop :=
  path.split s = [s] ∧ s ≠ "" ∧ s ≠ "." ∧ s ≠ "..".

(** The local names the imports of a file bind, in source order. *)
Definition bound_names (f : entry.SourceFile) : list string :=
  entry.imports f ≫=
    (λ i, match entry.binding i with
          | entry.namespace alias => [alias]
          | entry.named names => names
          end).

(** The names of a list that occur again further on. *)
Fixpoint duplicates (names : list string) : list string :=
  match names with
  | [] => []
  | n :: rest => if decide (n ∈ rest) then n :: duplicates rest else duplicates rest
  end.

(** * Properties *)

(** ** The definitions at work *)

Example join_dist_absolute : path.join ["/repo/bin"; ".."; "dist"] = "/repo/dist".
Proof. reflexivity. Qed.

Example join_dist_relative : path.join ["bin"; ".."; "dist"] = "dist".
Proof. reflexivity. Qed.

Example synth_paths :
  match synth "CloudFoundationProjectStack" None "/repo/bin" with
  | Ok g => paths g
  | Throw _ => []
  end =
  [ ["CloudFoundationProjectStack"];
    ["CloudFoundationProjectStack"; "WebsiteBucket"];
    ["CloudFoundationProjectStack"; "WebsiteFiles"];
    ["CloudFoundationProjectStack"; "WebsiteACL"];
    ["CloudFoundationProjectStack"; "WebsiteDistribution"] ].
Proof. vm_compute. reflexivity. Qed.

Example block_acls_leaves_policies_open : s3.all_flags_enabled s3.BLOCK_ACLS = false.
Proof. reflexivity. Qed.

(** A group that blocks quoted input: the request is blocked by the rule of
    priority 5, and a harmless one falls through to the default action. *)
Example evaluate_sqli :
  let groups (vendor name : string) (req : string) :=
    if decide (name = "AWSManagedRulesSQLiRuleSet" ∧ req = "id=1' OR '1'='1")
    then Some waf.Blocked else None in
  waf.evaluate groups webAcl_props "id=1' OR '1'='1" = waf.Blocked ∧
  waf.evaluate groups webAcl_props "id=1" = waf.Allowed.
Proof. vm_compute. done. Qed.

Example upload_prunes :
  sync.upload true {[ "index.html" := "v2" ]}
                   {[ "index.html" := "v1"; "old.js" := "x" ]}
  = {[ "index.html" := "v2" ]}.
Proof. by vm_compute. Qed.

Example upload_keeps :
  sync.upload false {[ "index.html" := "v2" ]}
                    {[ "index.html" := "v1"; "old.js" := "x" ]}
  = {[ "index.html" := "v2"; "old.js" := "x" ]}.
Proof. by vm_compute. Qed.

(** ** The construct tree *)

Lemma new_construct_fresh scope id r t :
  scope ++ [sanitizeId id] ∉ paths t →
  new_construct scope id r t
  = Ok (scope ++ [sanitizeId id], t ++ [(scope ++ [sanitizeId id], r)]).
Proof. intros Hfresh. unfold new_construct. by rewrite decide_False. Qed.

Lemma new_construct_taken scope id r t :
  scope ++ [sanitizeId id] ∈ paths t →
  ∃ msg, new_construct scope id r t = Throw msg.
Proof. intros Hin. unfold new_construct. rewrite decide_True by done. eauto. Qed.

(** Creating a construct keeps the paths of the tree pairwise distinct. *)
Lemma new_construct_NoDup scope id r t p t' :
  NoDup (paths t) →
  new_construct scope id r t = Ok (p, t') →
  NoDup (paths t') ∧ p = scope ++ [sanitizeId id] ∧ t' = t ++ [(p, r)].
Proof.
  intros Hnd. unfold new_construct. case_decide as Hin; [done|].
  intros [= <- <-]. split; [|done].
  unfold paths in *. rewrite fmap_app. simpl.
  apply NoDup_app. split_and!; [done| |apply NoDup_singleton].
  intros q Hq ->%list_elem_of_singleton. done.
Qed.

(** With distinct paths, a node of the tree is the one its path resolves to. *)
Lemma resolve_elem_of t p r :
  NoDup (paths t) → (p, r) ∈ t → resolve p t = Some r.
Proof.
  induction t as [|[q r'] t IH]; intros Hnd Hin; [by apply elem_of_nil in Hin|].
  apply NoDup_cons in Hnd as [Hq Hnd]. simpl.
  apply elem_of_cons in Hin as [[= -> ->]|Hin].
  - by rewrite decide_True.
  - rewrite decide_False; [by apply IH|].
    intros ->. apply Hq. unfold paths. apply list_elem_of_fmap. by exists (p, r).
Qed.

Lemma resolve_Some t p r : resolve p t = Some r → (p, r) ∈ t.
Proof.
  induction t as [|[q r'] t IH]; simpl; [done|].
  case_decide as Hq.
  - intros [= ->]. subst. apply elem_of_cons. by left.
  - intros H. apply elem_of_cons. right. by apply IH.
Qed.

(** The ids the constructor gives its children are pairwise distinct, and a
    child is never its parent. *)
Lemma child_ne_parent (this : ConstructPath) (c : string) : this ++ [c] ≠ this.
Proof. intros H. apply (f_equal (@List.length string)) in H. rewrite List.length_app in H. simpl in H. lia. Qed.

Lemma child_inj (this : ConstructPath) (c1 c2 : string) :
  this ++ [c1] = this ++ [c2] → c1 = c2.
Proof. intros H. apply app_inv_head in H. by injection H. Qed.

Ltac plain_ids :=
  change (sanitizeId "WebsiteBucket") with "WebsiteBucket" in *;
  change (sanitizeId "WebsiteFiles") with "WebsiteFiles" in *;
  change (sanitizeId "WebsiteACL") with "WebsiteACL" in *;
  change (sanitizeId "WebsiteDistribution") with "WebsiteDistribution" in *.

Ltac fresh_path :=
  plain_ids; unfold paths; cbn [app fmap list_fmap fst];
  repeat (rewrite not_elem_of_cons; split);
  [ try (apply child_ne_parent);
    try (intros ?%child_inj; discriminate) .. | apply not_elem_of_nil ].

Ltac distinct_paths :=
  repeat (apply not_elem_of_cons; split; [intros Heq; discriminate Heq|]);
  apply not_elem_of_nil.

Ltac in_graph :=
  repeat first [ apply list_elem_of_here | apply list_elem_of_further ].

(** The constructor succeeds in a fresh app, under any scope and id. *)
Lemma AleezaStack_Ok scope id props __dirname :
  let this := scope ++ [sanitizeId id] in
  AleezaStack scope id props __dirname [] =
    Ok (this,
        [ (this, Stack props);
          (this ++ ["WebsiteBucket"], Bucket website_bucket_props);
          (this ++ ["WebsiteFiles"],
           BucketDeployment (website_files_props (this ++ ["WebsiteBucket"]) __dirname));
          (this ++ ["WebsiteACL"], CfnWebACL webAcl_props);
          (this ++ ["WebsiteDistribution"],
           Distribution (distribution_props (this ++ ["WebsiteBucket"])
                                            (this ++ ["WebsiteACL"]))) ]).
Proof.
  intros this. unfold AleezaStack, bind, ret.
  rewrite new_construct_fresh by (apply not_elem_of_nil). fold this.
  repeat (rewrite new_construct_fresh by fresh_path; plain_ids; cbn [app]).
  reflexivity.
Qed.

(** The graph the constructor declares in a fresh app. *)
Lemma synth_Ok id props __dirname :
  synth id props __dirname =
    Ok [ ([sanitizeId id], Stack props);
         ([sanitizeId id; "WebsiteBucket"], Bucket website_bucket_props);
         ([sanitizeId id; "WebsiteFiles"],
          BucketDeployment (website_files_props [sanitizeId id; "WebsiteBucket"] __dirname));
         ([sanitizeId id; "WebsiteACL"], CfnWebACL webAcl_props);
         ([sanitizeId id; "WebsiteDistribution"],
          Distribution (distribution_props [sanitizeId id; "WebsiteBucket"] [sanitizeId id; "WebsiteACL"])) ].
Proof. unfold synth. by rewrite AleezaStack_Ok. Qed.

(** A second stack with the same id in the same app is refused. *)
Lemma AleezaStack_twice scope id props __dirname this t :
  AleezaStack scope id props __dirname [] = Ok (this, t) →
  ∃ msg, AleezaStack scope id props __dirname t = Throw msg.
Proof.
  rewrite AleezaStack_Ok. intros [= <- <-].
  unfold AleezaStack, bind.
  edestruct new_construct_taken as [msg ->]; [|eauto].
  unfold paths. simpl. apply elem_of_cons. by left.
Qed.

(** The paths of a synthesized graph are pairwise distinct. *)
Lemma synth_NoDup id props __dirname g :
  synth id props __dirname = Ok g → NoDup (paths g).
Proof.
  unfold synth, AleezaStack, bind, ret.
  destruct (new_construct [] id _ []) as [[this t1]|] eqn:E1; [|done].
  apply new_construct_NoDup in E1 as (N1 & _ & _); [|apply NoDup_nil_2].
  destruct (new_construct this "WebsiteBucket" _ t1) as [[b t2]|] eqn:E2; [|done].
  apply new_construct_NoDup in E2 as (N2 & _ & _); [|done].
  destruct (new_construct this "WebsiteFiles" _ t2) as [[f t3]|] eqn:E3; [|done].
  apply new_construct_NoDup in E3 as (N3 & _ & _); [|done].
  destruct (new_construct this "WebsiteACL" _ t3) as [[a t4]|] eqn:E4; [|done].
  apply new_construct_NoDup in E4 as (N4 & _ & _); [|done].
  destruct (new_construct this "WebsiteDistribution" _ t4) as [[d t5]|] eqn:E5; [|done].
  apply new_construct_NoDup in E5 as (N5 & _ & _); [|done].
  by intros [= <-].
Qed.

(** ** The Storage Resource *)

(** C4: the declared Storage Resource is encrypted at rest, has all four
    public-access-block flags set, is versioned and requires HTTPS. *)
Theorem storage_resource_flags id props __dirname :
  ∃ g p b,
    synth id props __dirname = Ok g ∧
    buckets g = [(p, b)] ∧
    s3.encrypted_at_rest b = true ∧
    s3.blockPublicAcls (s3.blockPublicAccess b) = true ∧
    s3.blockPublicPolicy (s3.blockPublicAccess b) = true ∧
    s3.ignorePublicAcls (s3.blockPublicAccess b) = true ∧
    s3.restrictPublicBuckets (s3.blockPublicAccess b) = true ∧
    s3.versioned b = true ∧
    s3.enforceSSL b = true.
Proof.
  eexists _, _, _. split; [apply synth_Ok|].
  split; [reflexivity|]. by repeat split.
Qed.

(** A bucket whose ACL flags are set is read only through a distribution
    whose origin holds an Origin Access Control for it. *)
Lemma may_read_private g who b bp :
  resolve b g = Some (Bucket bp) →
  s3.blockPublicAcls (s3.blockPublicAccess bp) = true →
  access.may_read g who b = true →
  ∃ d dp,
    who = access.ThroughDistribution d ∧
    (d, Distribution dp) ∈ g ∧
    cloudfront.origin (cloudfront.defaultBehavior dp)
      = cf_origins.S3BucketOrigin.withOriginAccessControl b.
Proof.
  intros Hb Hflag. unfold access.may_read. rewrite Hb.
  destruct who as [|d].
  - rewrite Hflag. simpl. rewrite andb_false_r. done.
  - destruct (resolve d g) as [[| | | |dp]|] eqn:Hd; try done.
    intros Horigin%bool_decide_eq_true.
    exists d, dp. split_and!; [done| |done]. by apply resolve_Some.
Qed.

(** C1: whenever a distribution is declared, its origin is the declared
    bucket behind an Origin Access Control, the bucket blocks all public
    access (all four flags), and nobody reads the bucket except through a
    distribution holding that access control. *)
Theorem private_origin_invariant id props __dirname :
  ∃ g,
    synth id props __dirname = Ok g ∧
    (∃ d dp, distributions g = [(d, dp)]) ∧
    ∀ d dp, (d, Distribution dp) ∈ g →
      ∃ b bp,
        cloudfront.origin (cloudfront.defaultBehavior dp)
          = cf_origins.S3BucketOrigin.withOriginAccessControl b ∧
        resolve b g = Some (Bucket bp) ∧
        s3.blockPublicAccess bp = s3.BLOCK_ALL ∧
        s3.all_flags_enabled (s3.blockPublicAccess bp) = true ∧
        ∀ who, access.may_read g who b = true →
          ∃ d' dp',
            who = access.ThroughDistribution d' ∧
            (d', Distribution dp') ∈ g ∧
            cloudfront.origin (cloudfront.defaultBehavior dp')
              = cf_origins.S3BucketOrigin.withOriginAccessControl b.
Proof.
  pose proof (synth_Ok id props __dirname) as Hg.
  pose proof (synth_NoDup _ _ _ _ Hg) as Hnd. revert Hg Hnd.
  set (g := [_; _; _; _; _]). intros Hg Hnd.
  exists g. split; [exact Hg|].
  split; [by eexists _, _|].
  intros d dp Hd.
  repeat (apply elem_of_cons in Hd as [[= -> ->]|Hd]); [|by apply elem_of_nil in Hd].
  exists [sanitizeId id; "WebsiteBucket"], website_bucket_props.
  assert (resolve [sanitizeId id; "WebsiteBucket"] g = Some (Bucket website_bucket_props)) as Hb.
  { apply resolve_elem_of; [exact Hnd|].
    in_graph. }
  split_and!; [reflexivity|exact Hb|reflexivity|reflexivity|].
  intros who. by apply may_read_private with (bp := website_bucket_props).
Qed.


(** ** The Edge Distribution *)

(** C3: the declared distribution has one origin, the declared bucket read
    through an Origin Access Control; it attaches the declared policy set by
    its ARN; it names a default document and sets the logging flag.  The
    graph holds one bucket and one policy set, and the two references resolve
    to them and to nothing else. *)
Theorem distribution_bindings id props __dirname :
  ∃ g d dp b bp a acl,
    synth id props __dirname = Ok g ∧
    distributions g = [(d, dp)] ∧
    cloudfront.origin (cloudfront.defaultBehavior dp)
      = cf_origins.S3BucketOrigin.withOriginAccessControl b ∧
    buckets g = [(b, bp)] ∧
    resolve b g = Some (Bucket bp) ∧
    (∀ r, (b, r) ∈ g → r = Bucket bp) ∧
    cloudfront.webAclId dp = wafv2.attrArn a ∧
    web_acls g = [(a, acl)] ∧
    resolve a g = Some (CfnWebACL acl) ∧
    (∀ r, (a, r) ∈ g → r = CfnWebACL acl) ∧
    cloudfront.defaultRootObject dp = "index.html" ∧
    cloudfront.enableLogging dp = true.
Proof.
  pose proof (synth_Ok id props __dirname) as Hg.
  pose proof (synth_NoDup _ _ _ _ Hg) as Hnd. revert Hg Hnd.
  set (g := [_; _; _; _; _]). intros Hg Hnd.
  assert (resolve [sanitizeId id; "WebsiteBucket"] g = Some (Bucket website_bucket_props)) as Hb.
  { apply resolve_elem_of; [exact Hnd|in_graph]. }
  assert (resolve [sanitizeId id; "WebsiteACL"] g = Some (CfnWebACL webAcl_props)) as Ha.
  { apply resolve_elem_of; [exact Hnd|in_graph]. }
  exists g, [sanitizeId id; "WebsiteDistribution"],
    (distribution_props [sanitizeId id; "WebsiteBucket"] [sanitizeId id; "WebsiteACL"]),
    [sanitizeId id; "WebsiteBucket"], website_bucket_props, [sanitizeId id; "WebsiteACL"], webAcl_props.
  split_and!; try reflexivity; try assumption.
  - intros r Hr. apply (resolve_elem_of _ _ _ Hnd) in Hr. congruence.
  - intros r Hr. apply (resolve_elem_of _ _ _ Hnd) in Hr. congruence.
Qed.

(** ** The Access-Control Policy Set *)

(** The first match is the first rule of the list that decides. *)
Lemma first_match_split {Request} (mg : string → string → Request → option waf.Verdict)
    rules req r v :
  waf.first_match mg rules req = Some (r, v) →
  ∃ l1 l2,
    rules = l1 ++ r :: l2 ∧
    Forall (λ r', waf.rule_decision mg r' req = None) l1 ∧
    waf.rule_decision mg r req = Some v.
Proof.
  induction rules as [|r0 rest IH]; simpl; [done|].
  destruct (waf.rule_decision mg r0 req) as [v0|] eqn:E.
  - intros [= -> ->]. exists [], rest. by split_and!.
  - intros (l1 & l2 & -> & Hl1 & Hr)%IH.
    exists (r0 :: l1), l2. split_and!; [done| |done]. by constructor.
Qed.

Lemma first_match_None {Request} (mg : string → string → Request → option waf.Verdict)
    rules req :
  Forall (λ r, waf.rule_decision mg r req = None) rules →
  waf.first_match mg rules req = None.
Proof.
  induction 1 as [|r rest Hr _ IH]; simpl; [done|]. by rewrite Hr.
Qed.

(** In a list of strictly ascending priorities, whatever has a lower
    priority than a rule stands before it. *)
Lemma ascending_lower_before (l1 l2 : list wafv2.Rule.t) r r' :
  StronglySorted Z.lt (wafv2.Rule.priority <$> (l1 ++ r :: l2)) →
  r' ∈ l1 ++ r :: l2 →
  wafv2.Rule.priority r' < wafv2.Rule.priority r →
  r' ∈ l1.
Proof.
  induction l1 as [|r1 l1 IH]; simpl; intros Hs Hin Hlt.
  - apply StronglySorted_inv in Hs as [_ Hall].
    apply elem_of_cons in Hin as [->|Hin]; [lia|].
    rewrite Forall_forall in Hall.
    assert (wafv2.Rule.priority r < wafv2.Rule.priority r'); [|lia].
    apply Hall, list_elem_of_fmap. by exists r'.
  - apply StronglySorted_inv in Hs as [Hs _].
    apply elem_of_cons in Hin as [->|Hin]; [apply list_elem_of_here|].
    apply list_elem_of_further. by apply IH.
Qed.

Lemma declared_rules_ascending :
  StronglySorted Z.lt (wafv2.Rule.priority <$> wafv2.rules webAcl_props).
Proof. simpl. repeat (constructor; [|repeat constructor; lia]). constructor. Qed.

Lemma declared_rules_order :
  waf.evaluation_order (wafv2.rules webAcl_props) = wafv2.rules webAcl_props.
Proof. vm_compute. reflexivity. Qed.

(** C2: the priorities of the declared rules are pairwise distinct; the
    order of evaluation, ascending by priority, is strictly ascending and is
    the order of declaration; and when a rule decides a request, every rule
    of lower priority stood before it and did not decide. *)
Theorem priorities_distinct_and_ascending id props __dirname :
  ∃ g a acl,
    synth id props __dirname = Ok g ∧
    web_acls g = [(a, acl)] ∧
    NoDup (wafv2.Rule.priority <$> wafv2.rules acl) ∧
    StronglySorted Z.lt
      (wafv2.Rule.priority <$> waf.evaluation_order (wafv2.rules acl)) ∧
    waf.evaluation_order (wafv2.rules acl) = wafv2.rules acl ∧
    ∀ (Request : Type) (mg : string → string → Request → option waf.Verdict)
      req r v,
      waf.first_match mg (waf.evaluation_order (wafv2.rules acl)) req = Some (r, v) →
      ∀ r', r' ∈ wafv2.rules acl →
        wafv2.Rule.priority r' < wafv2.Rule.priority r →
        waf.rule_decision mg r' req = None.
Proof.
  eexists _, [sanitizeId id; "WebsiteACL"], webAcl_props.
  split; [apply synth_Ok|]. split; [reflexivity|].
  rewrite declared_rules_order.
  split_and!; [|apply declared_rules_ascending|reflexivity|].
  - apply (bool_decide_unpack _). vm_compute. exact I.
  - intros Request mg req r v (l1 & l2 & Hsplit & Hl1 & _)%first_match_split r' Hin Hlt.
    rewrite Forall_forall in Hl1. apply Hl1.
    apply (ascending_lower_before l1 l2 r r'); [|by rewrite <- Hsplit|done].
    rewrite <- Hsplit. apply declared_rules_ascending.
Qed.

(** Under a default action of allow, a request is blocked only by a rule of
    the policy set. *)
Lemma evaluate_blocked {Request} (mg : string → string → Request → option waf.Verdict)
    acl req :
  wafv2.defaultAction acl = wafv2.allow →
  waf.evaluate mg acl req = waf.Blocked →
  ∃ r, r ∈ wafv2.rules acl ∧ waf.rule_decision mg r req = Some waf.Blocked.
Proof.
  intros Hdefault. unfold waf.evaluate.
  destruct (waf.first_match _ _ _) as [[r v]|] eqn:Hfirst.
  - intros ->. apply first_match_split in Hfirst as (l1 & l2 & Hsplit & _ & Hr).
    exists r. split; [|done].
    assert (r ∈ waf.evaluation_order (wafv2.rules acl)) as Hin.
    { rewrite Hsplit. apply elem_of_app. right. apply list_elem_of_here. }
    unfold waf.evaluation_order in Hin. by rewrite merge_sort_Permutation in Hin.
  - by rewrite Hdefault.
Qed.

Lemma evaluate_no_match {Request} (mg : string → string → Request → option waf.Verdict)
    acl req :
  (∀ r, r ∈ wafv2.rules acl → waf.rule_decision mg r req = None) →
  waf.evaluate mg acl req = waf.default_verdict (wafv2.defaultAction acl).
Proof.
  intros Hnone. unfold waf.evaluate. rewrite first_match_None; [done|].
  apply Forall_forall. intros r Hr. apply Hnone.
  unfold waf.evaluation_order in Hr. by rewrite merge_sort_Permutation in Hr.
Qed.

(** C9: the declared policy set has scope CLOUDFRONT and default action
    allow; it has five rules, each with override action none and with
    CloudWatch metrics and sampled requests enabled; so a request that no
    rule decides is allowed, and a blocked request was blocked by one of the
    referenced managed rule groups. *)
Theorem policy_set_defaults {Request : Type}
    (managed_group : string → string → Request → option waf.Verdict)
    id props __dirname :
  ∃ g a acl,
    synth id props __dirname = Ok g ∧
    web_acls g = [(a, acl)] ∧
    wafv2.scope acl = "CLOUDFRONT" ∧
    wafv2.defaultAction acl = wafv2.allow ∧
    List.length (wafv2.rules acl) = 5%nat ∧
    Forall (λ r,
        wafv2.Rule.overrideAction r = wafv2.none ∧
        wafv2.VisibilityConfig.cloudWatchMetricsEnabled (wafv2.Rule.visibilityConfig r) = true ∧
        wafv2.VisibilityConfig.sampledRequestsEnabled (wafv2.Rule.visibilityConfig r) = true)
      (wafv2.rules acl) ∧
    (∀ req,
        (∀ r, r ∈ wafv2.rules acl → waf.group_decision managed_group r req = None) →
        waf.evaluate managed_group acl req = waf.Allowed) ∧
    (∀ req,
        waf.evaluate managed_group acl req = waf.Blocked →
        ∃ r, r ∈ wafv2.rules acl ∧
             waf.group_decision managed_group r req = Some waf.Blocked).
Proof.
  eexists _, [sanitizeId id; "WebsiteACL"], webAcl_props.
  split; [apply synth_Ok|]. split; [reflexivity|].
  assert (Forall (λ r, wafv2.Rule.overrideAction r = wafv2.none)
            (wafv2.rules webAcl_props)) as Hnone.
  { simpl. by repeat constructor. }
  rewrite Forall_forall in Hnone.
  split_and!; try reflexivity.
  - simpl. by repeat constructor.
  - intros req Hgroups. rewrite evaluate_no_match; [done|].
    intros r Hr. unfold waf.rule_decision. rewrite (Hnone r Hr). by apply Hgroups.
  - intros req (r & Hr & Hdec)%evaluate_blocked; [|done].
    exists r. split; [done|].
    unfold waf.rule_decision in Hdec. by rewrite (Hnone r Hr) in Hdec.
Qed.

(** ** The Asset Sync Step *)

Lemma upload_lookup (prune : bool) (local remote : Objects) (k : string) :
  sync.upload prune local remote !! k =
    match local !! k with
    | Some v => Some v
    | None => if prune then None else remote !! k
    end.
Proof.
  unfold sync.upload. destruct prune.
  - destruct (local !! k) as [v|] eqn:Hk.
    + apply map_lookup_filter_Some. simpl. split; [|by rewrite Hk].
      apply lookup_union_Some_raw. by left.
    + apply map_lookup_filter_None. right. intros v _. simpl. rewrite Hk.
      by intros [? ?].
  - rewrite lookup_union. destruct (local !! k), (remote !! k); done.
Qed.

(** Uploading the same directory again changes nothing. *)
Lemma upload_idempotent (prune : bool) (local remote : Objects) :
  sync.upload prune local (sync.upload prune local remote)
  = sync.upload prune local remote.
Proof.
  apply map_eq. intros k. rewrite !upload_lookup.
  by destruct (local !! k), prune.
Qed.

(** A step with one source directory uploads the files of that directory. *)
Lemma deploy_one_source (fs : FileSystem) (step : s3_deployment.BucketDeploymentProps)
    (cloud : Cloud) (dir : string) (files : Objects) :
  s3_deployment.sources step = [s3_deployment.Source.asset dir] →
  fs !! dir = Some files →
  assets.deploy fs step cloud = Ok (sync.run step files cloud).
Proof.
  intros Hsources Hdir. unfold assets.deploy. rewrite Hsources.
  cbn [assets.stage assets.read]. rewrite Hdir.
  by rewrite (left_id_L ∅ (∪)).
Qed.

(** What a run leaves in the destination bucket. *)
Lemma run_lookup (step : s3_deployment.BucketDeploymentProps) (local objects : Objects)
    (cloud : Cloud) (k : string) :
  cloud !! s3_deployment.destinationBucket step = Some objects →
  (sync.run step local cloud !! s3_deployment.destinationBucket step) ≫= (.!! k)
  = sync.upload (s3_deployment.prune step) local objects !! k.
Proof.
  intros Hcloud. unfold sync.run. by rewrite lookup_alter_eq, Hcloud.
Qed.

Lemma run_bucket (step : s3_deployment.BucketDeploymentProps) (local objects : Objects)
    (cloud : Cloud) :
  cloud !! s3_deployment.destinationBucket step = Some objects →
  sync.run step local cloud !! s3_deployment.destinationBucket step
  = Some (sync.upload (s3_deployment.prune step) local objects).
Proof.
  intros Hcloud. unfold sync.run. by rewrite lookup_alter_eq, Hcloud.
Qed.

(** C5: the declared step uploads the dist directory beside the source
    directory into the declared bucket, prunes and retains.  After a run
    that uploaded a file of that directory, removing the file from the
    directory and running again removes the object from the bucket; with
    pruning disabled the object stays; and removing the step from the
    declaration leaves the bucket as it is. *)
Theorem asset_sync_prune_and_retain id props __dirname :
  ∃ g b bp f step dir,
    synth id props __dirname = Ok g ∧
    buckets g = [(b, bp)] ∧
    deployments g = [(f, step)] ∧
    s3_deployment.destinationBucket step = b ∧
    dir = path.join [__dirname; ".."; "dist"] ∧
    s3_deployment.sources step = [s3_deployment.Source.asset dir] ∧
    s3_deployment.prune step = true ∧
    s3_deployment.retainOnDelete step = true ∧
    ∀ (fs : FileSystem) (files objects : Objects) (cloud : Cloud) k v,
      fs !! dir = Some files →
      files !! k = Some v →
      cloud !! b = Some objects →
      let fs' := <[dir := delete k files]> fs in
      let unpruned :=
        {| s3_deployment.destinationBucket := s3_deployment.destinationBucket step;
           s3_deployment.sources := s3_deployment.sources step;
           s3_deployment.prune := false;
           s3_deployment.retainOnDelete := s3_deployment.retainOnDelete step |} in
      ∃ first_run second_run unpruned_run,
        assets.deploy fs step cloud = Ok first_run ∧
        (first_run !! b) ≫= (.!! k) = Some v ∧
        assets.deploy fs' step first_run = Ok second_run ∧
        (second_run !! b) ≫= (.!! k) = None ∧
        assets.deploy fs' unpruned first_run = Ok unpruned_run ∧
        (unpruned_run !! b) ≫= (.!! k) = Some v ∧
        sync.remove step first_run = first_run.
Proof.
  eexists _, [sanitizeId id; "WebsiteBucket"], website_bucket_props,
    [sanitizeId id; "WebsiteFiles"],
    (website_files_props [sanitizeId id; "WebsiteBucket"] __dirname), _.
  split; [apply synth_Ok|].
  split_and!; try reflexivity.
  intros fs files objects cloud k v Hdir Hk Hcloud.
  set (dir := path.join [__dirname; ".."; "dist"]) in *.
  set (b := [sanitizeId id; "WebsiteBucket"]) in *.
  set (step := website_files_props b __dirname).
  set (unpruned := {| s3_deployment.destinationBucket := b;
                      s3_deployment.sources := s3_deployment.sources step;
                      s3_deployment.prune := false;
                      s3_deployment.retainOnDelete := true |}).
  assert (s3_deployment.sources step = [s3_deployment.Source.asset dir]) as Hsources
    by reflexivity.
  assert (<[dir := delete k files]> fs !! dir = Some (delete k files)) as Hdir'
    by apply lookup_insert_eq.
  pose proof (run_bucket step files objects cloud Hcloud) as Hfirst.
  exists (sync.run step files cloud),
    (sync.run step (delete k files) (sync.run step files cloud)),
    (sync.run unpruned (delete k files) (sync.run step files cloud)).
  split_and!.
  - by apply (deploy_one_source _ _ _ dir).
  - trans (sync.upload true files objects !! k);
      [exact (run_lookup step files objects cloud k Hcloud)|].
    by rewrite upload_lookup, Hk.
  - by apply (deploy_one_source _ _ _ dir).
  - trans (sync.upload true (delete k files) (sync.upload true files objects) !! k);
      [exact (run_lookup step (delete k files) _ _ k Hfirst)|].
    by rewrite upload_lookup, lookup_delete_eq.
  - by apply (deploy_one_source _ _ _ dir).
  - trans (sync.upload false (delete k files) (sync.upload true files objects) !! k);
      [exact (run_lookup unpruned (delete k files) _ _ k Hfirst)|].
    by rewrite !upload_lookup, lookup_delete_eq, Hk.
  - reflexivity.
Qed.

(** Without retention, removing the step empties the bucket. *)
Lemma remove_without_retention (step : s3_deployment.BucketDeploymentProps)
    (cloud : Cloud) (objects : Objects) :
  s3_deployment.retainOnDelete step = false →
  cloud !! s3_deployment.destinationBucket step = Some objects →
  sync.remove step cloud !! s3_deployment.destinationBucket step = Some ∅.
Proof.
  intros Hretain Hcloud. unfold sync.remove. rewrite Hretain.
  by rewrite lookup_alter_eq, Hcloud.
Qed.

(** ** Teardown *)

(** A bucket that is destroyed together with its objects is gone after its
    deletion, whatever it held. *)
Lemma delete_bucket_with_objects (p : ConstructPath) (bp : s3.BucketProps)
    (cloud : Cloud) :
  s3.removalPolicy bp = cdk.DESTROY →
  s3.autoDeleteObjects bp = true →
  teardown.delete_resource p (Bucket bp) cloud !! p = None.
Proof.
  intros Hpolicy Hauto. unfold teardown.delete_resource.
  rewrite Hpolicy, Hauto.
  destruct (cloud !! p) as [objects|] eqn:Hp; simpl; [|exact Hp].
  apply lookup_delete_eq.
Qed.

(** A bucket that is destroyed without its objects survives when it is not
    empty. *)
Lemma delete_bucket_not_empty (p : ConstructPath) (bp : s3.BucketProps)
    (cloud : Cloud) (objects : Objects) :
  s3.removalPolicy bp = cdk.DESTROY →
  s3.autoDeleteObjects bp = false →
  cloud !! p = Some objects →
  objects ≠ ∅ →
  teardown.delete_resource p (Bucket bp) cloud = cloud.
Proof.
  intros Hpolicy Hauto Hp Hne. unfold teardown.delete_resource.
  rewrite Hpolicy, Hauto, Hp. simpl. by rewrite bool_decide_eq_false_2.
Qed.

(** C10: the declared bucket has removal policy DESTROY and deletes its
    objects with it, and the declared step retains on delete; a teardown
    leaves the step's uploads in place but deletes the bucket, whatever
    objects it holds. *)
Theorem teardown_deletes_bucket id props __dirname :
  ∃ g b bp f step,
    synth id props __dirname = Ok g ∧
    buckets g = [(b, bp)] ∧
    deployments g = [(f, step)] ∧
    s3_deployment.destinationBucket step = b ∧
    s3.removalPolicy bp = cdk.DESTROY ∧
    s3.autoDeleteObjects bp = true ∧
    s3_deployment.retainOnDelete step = true ∧
    ∀ cloud : Cloud,
      teardown.delete_resource f (BucketDeployment step) cloud = cloud ∧
      teardown.destroy g cloud !! b = None.
Proof.
  eexists _, [sanitizeId id; "WebsiteBucket"], website_bucket_props,
    [sanitizeId id; "WebsiteFiles"], (website_files_props [sanitizeId id; "WebsiteBucket"] __dirname).
  split; [apply synth_Ok|].
  split_and!; try reflexivity.
  intros cloud. split; [reflexivity|].
  by apply (delete_bucket_with_objects [sanitizeId id; "WebsiteBucket"] website_bucket_props).
Qed.

(** ** Provisioning order *)

(** In every state of a provisioning run, what a created resource refers to
    was created before it. *)
Lemma reachable_respects_references g created :
  NoDup (paths g) →
  engine.reachable g created →
  ∀ p r q, (p, r) ∈ g → q ∈ references r → p ∈ created → engine.before q p created.
Proof.
  intros Hnd Hrun. unfold engine.reachable in Hrun.
  revert created Hrun.
  apply (rtc_ind_r (λ created, ∀ p r q,
           (p, r) ∈ g → q ∈ references r → p ∈ created → engine.before q p created)).
  - intros p r q _ _ Hp. by apply elem_of_nil in Hp.
  - intros created created' Hrun Hstep IH.
    destruct Hstep as [created p' r' Hnode Hnew Hrefs].
    intros p r q Hin Href Hp. apply elem_of_app in Hp as [Hp|Hp].
    + destruct (IH p r q Hin Href Hp) as (l1 & l2 & -> & Hq).
      exists l1, (l2 ++ [p']). split; [|done].
      by rewrite <- app_assoc.
    + apply list_elem_of_singleton in Hp as ->.
      assert (r' = r) as ->.
      { apply (resolve_elem_of _ _ _ Hnd) in Hnode, Hin. congruence. }
      exists created, []. split; [done|]. by apply Hrefs.
Qed.

(** C6: the declaration can be provisioned in full, and in every state of
    every provisioning run the distribution, once created, comes after the
    bucket and the policy set it refers to, and the sync step comes after
    the bucket. *)
Theorem provisioning_respects_dependencies id props __dirname :
  ∃ g b bp f step a acl d dp,
    synth id props __dirname = Ok g ∧
    buckets g = [(b, bp)] ∧
    deployments g = [(f, step)] ∧
    web_acls g = [(a, acl)] ∧
    distributions g = [(d, dp)] ∧
    references (BucketDeployment step) = [b] ∧
    references (Distribution dp) = [b; a] ∧
    engine.reachable g (paths g) ∧
    ∀ created, engine.reachable g created →
      (d ∈ created → engine.before b d created ∧ engine.before a d created) ∧
      (f ∈ created → engine.before b f created).
Proof.
  pose proof (synth_Ok id props __dirname) as Hg.
  pose proof (synth_NoDup _ _ _ _ Hg) as Hnd. revert Hg Hnd.
  set (g := [_; _; _; _; _]). intros Hg Hnd.
  exists g, [sanitizeId id; "WebsiteBucket"], website_bucket_props,
    [sanitizeId id; "WebsiteFiles"], (website_files_props [sanitizeId id; "WebsiteBucket"] __dirname),
    [sanitizeId id; "WebsiteACL"], webAcl_props,
    [sanitizeId id; "WebsiteDistribution"],
    (distribution_props [sanitizeId id; "WebsiteBucket"] [sanitizeId id; "WebsiteACL"]).
  split_and!; try reflexivity; [exact Hg| |].
  - unfold engine.reachable.
    assert (∀ l p r, (p, r) ∈ g → p ∉ l → (∀ q, q ∈ references r → q ∈ l) →
              ∀ l', rtc (engine.step g) (l ++ [p]) l' → rtc (engine.step g) l l')
      as Hnext.
    { intros l p r Hin Hnew Hrefs l' Hrest.
      eapply rtc_l; [|exact Hrest]. by econstructor. }
    unfold paths. simpl.
    eapply (Hnext [] [sanitizeId id]); [in_graph|apply not_elem_of_nil|by intros q ?%elem_of_nil|].
    eapply (Hnext [_] [sanitizeId id; "WebsiteBucket"]);
      [in_graph|distinct_paths|by intros q ?%elem_of_nil|].
    eapply (Hnext [_; _] [sanitizeId id; "WebsiteFiles"]); [in_graph|distinct_paths| |].
    { intros q ->%list_elem_of_singleton. in_graph. }
    eapply (Hnext [_; _; _] [sanitizeId id; "WebsiteACL"]);
      [in_graph|distinct_paths|by intros q ?%elem_of_nil|].
    eapply (Hnext [_; _; _; _] [sanitizeId id; "WebsiteDistribution"]); [in_graph|distinct_paths| |].
    { intros q [->|[->|?%elem_of_nil]%elem_of_cons]%elem_of_cons; [in_graph..|done]. }
    apply rtc_refl.
  - intros created Hrun.
    pose proof (reachable_respects_references g created Hnd Hrun) as Hbefore.
    set (d := [sanitizeId id; "WebsiteDistribution"]).
    set (dp := distribution_props [sanitizeId id; "WebsiteBucket"] [sanitizeId id; "WebsiteACL"]).
    set (f := [sanitizeId id; "WebsiteFiles"]).
    set (step := website_files_props [sanitizeId id; "WebsiteBucket"] __dirname).
    split.
    + intros Hd. split.
      * apply (Hbefore d (Distribution dp)); [in_graph|simpl; in_graph|exact Hd].
      * apply (Hbefore d (Distribution dp)); [in_graph|simpl; in_graph|exact Hd].
    + intros Hf.
      apply (Hbefore f (BucketDeployment step)); [in_graph|simpl; in_graph|exact Hf].
Qed.

(** ** Idempotence of the declaration *)

Lemma omap_none {A B} (f : A → option B) (l : list A) :
  (∀ x, x ∈ l → f x = None) → omap f l = [].
Proof.
  induction l as [|x l IH]; intros Hnone; [done|].
  simpl. rewrite (Hnone x) by apply list_elem_of_here.
  apply IH. intros y Hy. by apply Hnone, list_elem_of_further.
Qed.

(** A graph with distinct paths has no diff against itself. *)
Lemma diff_same g : NoDup (paths g) → engine.diff g g = [].
Proof.
  intros Hnd. unfold engine.diff.
  assert (∀ n, n ∈ g → resolve n.1 g = Some n.2) as Hres.
  { intros [p r] Hn. by apply resolve_elem_of. }
  rewrite !omap_none; [done| |].
  - intros n Hn. rewrite (Hres n Hn). by rewrite decide_True.
  - intros n Hn. by rewrite (Hres n Hn).
Qed.

(** A declared resource that differs from the deployed one shows up. *)
Lemma diff_modified p r r' :
  r ≠ r' → engine.diff [(p, r)] [(p, r')] = [engine.Modified p].
Proof.
  intros Hne. unfold engine.diff. cbn [omap list_omap resolve fst snd].
  rewrite !decide_True by done. cbn [app].
  by rewrite decide_False.
Qed.

(** The assembly of a machine that holds the dist directory beside the
    source directory. *)
Lemma assemble_Ok (fs : FileSystem) id props __dirname (files : Objects) :
  fs !! path.join [__dirname; ".."; "dist"] = Some files →
  ∃ g,
    synth id props __dirname = Ok g ∧
    assets.assemble fs id props __dirname
    = Ok {| assets.graph := g;
            assets.staged := [([sanitizeId id; "WebsiteFiles"], ∅ ∪ files)] |}.
Proof.
  intros Hdir. eexists. split; [apply synth_Ok|].
  unfold assets.assemble. rewrite synth_Ok.
  cbn [deployments omap list_omap snd fst assets.stage_steps assets.stage assets.read
       s3_deployment.sources website_files_props].
  by rewrite Hdir.
Qed.

(** Without that directory nothing is synthesized. *)
Lemma assemble_missing_directory (fs : FileSystem) id props __dirname :
  fs !! path.join [__dirname; ".."; "dist"] = None →
  assets.assemble fs id props __dirname
  = Throw ("Cannot find asset at " +:+ path.join [__dirname; ".."; "dist"]).
Proof.
  intros Hdir. unfold assets.assemble. rewrite synth_Ok.
  cbn [deployments omap list_omap snd fst assets.stage_steps assets.stage assets.read
       s3_deployment.sources website_files_props].
  by rewrite Hdir.
Qed.

(** A change in the dist directory shows up as a modification of the sync
    step, and of nothing else. *)
Lemma diff_detects_local_change (fs1 fs2 : FileSystem) id props __dirname
    (files1 files2 : Objects) a1 a2 :
  fs1 !! path.join [__dirname; ".."; "dist"] = Some files1 →
  fs2 !! path.join [__dirname; ".."; "dist"] = Some files2 →
  files1 ≠ files2 →
  assets.assemble fs1 id props __dirname = Ok a1 →
  assets.assemble fs2 id props __dirname = Ok a2 →
  assets.diff a1 a2 = [engine.Modified [sanitizeId id; "WebsiteFiles"]].
Proof.
  intros H1 H2 Hne.
  destruct (assemble_Ok fs1 id props __dirname files1 H1) as (g & Hg & ->).
  destruct (assemble_Ok fs2 id props __dirname files2 H2) as (g' & Hg' & ->).
  assert (g' = g) as -> by congruence.
  intros [= <-] [= <-]. unfold assets.diff. cbn [assets.graph assets.staged].
  rewrite diff_same by (by eapply synth_NoDup).
  cbn [app omap list_omap assets.staged_at fst snd]. rewrite decide_True by done.
  rewrite decide_False; [done|].
  rewrite !(left_id_L ∅ (∪)). done.
Qed.

(** C7: when two syntheses of the stack from the same id, props and source
    directory succeed on machines whose dist directories hold the same
    files, whatever else the machines hold, they yield the same graph and
    the same staged assets, and the diff of the one against the other is
    empty. *)
Theorem synth_idempotent (fs1 fs2 : FileSystem) id props __dirname a1 a2 :
  fs1 !! path.join [__dirname; ".."; "dist"]
    = fs2 !! path.join [__dirname; ".."; "dist"] →
  assets.assemble fs1 id props __dirname = Ok a1 →
  assets.assemble fs2 id props __dirname = Ok a2 →
  a1 = a2 ∧ assets.diff a1 a2 = [].
Proof.
  intros Hsame H1 H2.
  destruct (fs1 !! path.join [__dirname; ".."; "dist"]) as [files|] eqn:Hdir; last first.
  { by rewrite assemble_missing_directory in H1. }
  symmetry in Hsame.
  destruct (assemble_Ok fs1 id props __dirname files Hdir) as (g & Hg & E1).
  destruct (assemble_Ok fs2 id props __dirname files Hsame) as (g' & Hg' & E2).
  assert (g' = g) as -> by congruence.
  rewrite E1 in H1. rewrite E2 in H2. injection H1 as <-. injection H2 as <-.
  split; [reflexivity|].
  unfold assets.diff. cbn [assets.graph assets.staged].
  rewrite diff_same by (by eapply synth_NoDup).
  cbn [app omap list_omap assets.staged_at fst snd].
  by rewrite !decide_True.
Qed.

Lemma synth_idempotent_witness :
  let site : Objects := {[ "index.html" := "<html></html>" ]} in
  let fs1 : FileSystem := {[ "/repo/dist" := site ]} in
  let fs2 : FileSystem := {[ "/repo/dist" := site; "/repo/notes" := {[ "todo" := "x" ]} ]} in
  ∃ a1 a2,
    assets.assemble fs1 "Site" None "/repo/bin" = Ok a1 ∧
    assets.assemble fs2 "Site" None "/repo/bin" = Ok a2 ∧
    a1 = a2 ∧ assets.diff a1 a2 = [].
Proof.
  intros site fs1 fs2.
  destruct (assemble_Ok fs1 "Site" None "/repo/bin" site) as (g1 & _ & H1);
    [vm_compute; reflexivity|].
  destruct (assemble_Ok fs2 "Site" None "/repo/bin" site) as (g2 & _ & H2);
    [vm_compute; reflexivity|].
  eexists _, _. split; [exact H1|]. split; [exact H2|].
  apply (synth_idempotent fs1 fs2 "Site" None "/repo/bin"); [|exact H1|exact H2].
  vm_compute. reflexivity.
Defined.

(** ** The entry point *)

(** C8: the entry point instantiates CloudFoundationProjectStack, which it
    imports from ../lib/cloud-foundation-project-stack; no file of the
    repository lies under lib, the import resolves to no file of the
    repository, the class has no definition in it, and the only class the
    repository defines is AleezaStack. *)
Theorem entry_import_unresolved :
  "CloudFoundationProjectStack" ∈ entry.instantiates entry.source ∧
  entry.importing entry.source "CloudFoundationProjectStack" =
    Some {| entry.binding := entry.named ["CloudFoundationProjectStack"];
            entry.specifier := "../lib/cloud-foundation-project-stack" |} ∧
  Forall (λ file, String.prefix "lib/" file = false) entry.repository_files ∧
  entry.resolve_module entry.repository_files entry.file_name
    "../lib/cloud-foundation-project-stack" = entry.Unresolved ∧
  entry.class_definition entry.repository_files entry.repository_modules
    entry.file_name "CloudFoundationProjectStack" = None ∧
  entry.defined_classes entry.repository_modules = ["AleezaStack"].
Proof.
  split_and!.
  - in_graph.
  - reflexivity.
  - by repeat constructor.
  - vm_compute. reflexivity.
  - vm_compute. reflexivity.
  - vm_compute. reflexivity.
Qed.

(** Had the module existed with the class exported, the import would have
    resolved to it. *)
Lemma entry_import_resolves_when_present :
  let stack_file := "lib/cloud-foundation-project-stack.ts" in
  let stack_module :=
    {| entry.imports := []; entry.classes := ["CloudFoundationProjectStack"];
       entry.exports := ["CloudFoundationProjectStack"]; entry.instantiates := [] |} in
  entry.class_definition (stack_file :: entry.repository_files)
    (<[stack_file := stack_module]> entry.repository_modules)
    entry.file_name "CloudFoundationProjectStack" = Some stack_file.
Proof. vm_compute. reflexivity. Qed.


(** * Further properties of the constructor *)

(** ** Runs in an app that already holds constructs *)

Lemma new_construct_inv scope id r t p t' :
  new_construct scope id r t = Ok (p, t') →
  p = scope ++ [sanitizeId id] ∧ (p ∉ paths t) ∧ t' = t ++ [(p, r)].
Proof.
  unfold new_construct. case_decide as Hin; [done|]. by intros [= <- <-].
Qed.

Lemma paths_app t1 t2 : paths (t1 ++ t2) = paths t1 ++ paths t2.
Proof. unfold paths. apply fmap_app. Qed.

Ltac fresh_in_run :=
  plain_ids; rewrite ?paths_app; cbn [paths fmap list_fmap fst];
  rewrite ?not_elem_of_app; split_and?;
  try assumption;
  try (rewrite list_elem_of_singleton;
       first [ apply child_ne_parent | (intros ?%child_inj; discriminate) ]).

(** Where the five paths are free, the constructor appends to the tree what
    it builds in a fresh app. *)
Lemma AleezaStack_run scope id props __dirname t :
  Forall (λ p, p ∉ paths t) (stack_paths (scope ++ [sanitizeId id])) →
  ∃ g,
    AleezaStack scope id props __dirname [] = Ok (scope ++ [sanitizeId id], g) ∧
    AleezaStack scope id props __dirname t = Ok (scope ++ [sanitizeId id], t ++ g).
Proof.
  intros Hfree. eexists. split; [apply AleezaStack_Ok|].
  set (this := scope ++ [sanitizeId id]) in *.
  apply Forall_cons in Hfree as [H0 Hfree].
  apply Forall_cons in Hfree as [H1 Hfree].
  apply Forall_cons in Hfree as [H2 Hfree].
  apply Forall_cons in Hfree as [H3 Hfree].
  apply Forall_cons in Hfree as [H4 _].
  unfold AleezaStack, bind, ret. fold this.
  rewrite new_construct_fresh by exact H0. fold this.
  do 4 (rewrite new_construct_fresh by fresh_in_run; plain_ids).
  by rewrite <- !app_assoc.
Qed.

Lemma AleezaStack_inv scope id props __dirname t this t' :
  AleezaStack scope id props __dirname t = Ok (this, t') →
  this = scope ++ [sanitizeId id] ∧
  Forall (λ p, p ∉ paths t) (stack_paths this) ∧
  ∃ g, AleezaStack scope id props __dirname [] = Ok (this, g) ∧ t' = t ++ g.
Proof.
  unfold AleezaStack, bind, ret. intros Hrun.
  destruct (new_construct scope id _ t) as [[this0 t1]|] eqn:E1; [|done].
  apply new_construct_inv in E1 as (-> & F0 & ->).
  set (s := scope ++ [sanitizeId id]) in *.
  destruct (new_construct s "WebsiteBucket" _ _) as [[b t2]|] eqn:E2; [|done].
  apply new_construct_inv in E2 as (-> & F1 & ->). plain_ids.
  destruct (new_construct s "WebsiteFiles" _ _) as [[f t3]|] eqn:E3; [|done].
  apply new_construct_inv in E3 as (-> & F2 & ->). plain_ids.
  destruct (new_construct s "WebsiteACL" _ _) as [[a t4]|] eqn:E4; [|done].
  apply new_construct_inv in E4 as (-> & F3 & ->). plain_ids.
  destruct (new_construct s "WebsiteDistribution" _ _) as [[d t5]|] eqn:E5; [|done].
  apply new_construct_inv in E5 as (-> & F4 & ->). plain_ids.
  injection Hrun as <- <-.
  repeat match goal with
         | H : _ |- _ => rewrite paths_app in H
         | H : _ |- _ => rewrite not_elem_of_app in H
         end.
  destruct_and!.
  assert (Forall (λ p, p ∉ paths t) (stack_paths s)) as Hfree.
  { unfold stack_paths. repeat constructor; tauto. }
  split; [done|]. split; [done|].
  destruct (AleezaStack_run scope id props __dirname t Hfree) as (g & Hg & Ht).
  exists g. split; [exact Hg|].
  fold s in Ht. unfold AleezaStack, bind, ret in Ht. fold s in Ht.
  rewrite new_construct_fresh in Ht by exact F0. fold s in Ht.
  do 4 (rewrite new_construct_fresh in Ht by fresh_in_run; plain_ids).
  by injection Ht.
Qed.

Lemma resolve_None t p : p ∉ paths t → resolve p t = None.
Proof.
  induction t as [|[q r] t IH]; [done|].
  unfold paths. cbn [fmap list_fmap fst resolve]. rewrite not_elem_of_cons.
  intros [Hne Hp]. rewrite decide_False by done. by apply IH.
Qed.

Lemma resolve_app_l t1 t2 p : p ∈ paths t1 → resolve p (t1 ++ t2) = resolve p t1.
Proof.
  induction t1 as [|[q r] t1 IH]; [by intros ?%elem_of_nil|].
  unfold paths. cbn [fmap list_fmap fst resolve app]. rewrite elem_of_cons.
  intros [->|Hp]; [by rewrite !decide_True|].
  case_decide; [done|]. by apply IH.
Qed.

Lemma resolve_app_r t1 t2 p : p ∉ paths t1 → resolve p (t1 ++ t2) = resolve p t2.
Proof.
  induction t1 as [|[q r] t1 IH]; [done|].
  unfold paths. cbn [fmap list_fmap fst resolve app]. rewrite not_elem_of_cons.
  intros [Hne Hp]. rewrite decide_False by done. by apply IH.
Qed.

(** The paths of what the constructor builds in a fresh app. *)
Lemma AleezaStack_paths scope id props __dirname this g :
  AleezaStack scope id props __dirname [] = Ok (this, g) →
  paths g = stack_paths this.
Proof. rewrite AleezaStack_Ok. by intros [= <- <-]. Qed.

Lemma stack_paths_prefix this p : p ∈ stack_paths this → this `prefix_of` p.
Proof.
  unfold stack_paths. intros Hp.
  repeat (apply elem_of_cons in Hp as [->|Hp]); [..|by apply elem_of_nil in Hp].
  - exists []. by rewrite app_nil_r.
  - by eexists.
  - by eexists.
  - by eexists.
  - by eexists.
Qed.

Lemma stack_paths_NoDup this : NoDup (stack_paths this).
Proof.
  unfold stack_paths.
  repeat (apply NoDup_cons; split;
          [ repeat (apply not_elem_of_cons; split;
                    [ first [ (intros Heq; symmetry in Heq; by apply child_ne_parent in Heq)
                            | (intros ?%child_inj; discriminate) ] |]);
            apply not_elem_of_nil |]).
  apply NoDup_nil_2.
Qed.

(** X1: in an app that already holds constructs, a successful run keeps
    them as they are and in place; the constructs of the source it appends
    are those it registers in a fresh app, under the same path of the stack,
    and all of them lie at or beneath that path. *)
Theorem AleezaStack_appends scope id props __dirname t this t' :
  AleezaStack scope id props __dirname t = Ok (this, t') →
  ∃ g,
    AleezaStack scope id props __dirname [] = Ok (this, g) ∧
    t' = t ++ g ∧
    ∀ p, p ∈ paths g → this `prefix_of` p.
Proof.
  intros (-> & _ & g & Hg & ->)%AleezaStack_inv.
  exists g. split_and!; [done|done|].
  intros p Hp. rewrite (AleezaStack_paths _ _ _ _ _ _ Hg) in Hp.
  by apply stack_paths_prefix.
Qed.

Lemma AleezaStack_appends_witness :
  ∃ g,
    AleezaStack [] "Site" None "/repo/bin" [] = Ok (["Site"], g) ∧
    AleezaStack [] "Site" None "/repo/bin" [(["Other"], Stack None)]
      = Ok (["Site"], (["Other"], Stack None) :: g).
Proof.
  destruct (AleezaStack_appends [] "Site" None "/repo/bin" [(["Other"], Stack None)]
              ["Site"]
              match AleezaStack [] "Site" None "/repo/bin" [(["Other"], Stack None)] with
              | Ok (_, t') => t'
              | Throw _ => []
              end) as (g & Hg & Ht & _).
  - vm_compute. reflexivity.
  - exists g. split; [exact Hg|].
    transitivity (Ok (["Site"],
      match AleezaStack [] "Site" None "/repo/bin" [(["Other"], Stack None)] with
      | Ok (_, t') => t'
      | Throw _ => []
      end)); [vm_compute; reflexivity|].
    by rewrite Ht.
Defined.

(** X2: the constructor never succeeds over a construct the app already
    holds: after a successful run, the path of the stack and the paths of
    its four children were all free before it. *)
Theorem AleezaStack_needs_free_paths scope id props __dirname t this t' :
  AleezaStack scope id props __dirname t = Ok (this, t') →
  Forall (λ p, p ∉ paths t) (stack_paths this).
Proof. by intros (_ & Hfree & _)%AleezaStack_inv. Qed.

Lemma AleezaStack_needs_free_paths_witness :
  Forall (λ p, p ∉ paths [(["Other"], Stack None)]) (stack_paths ["Site"]).
Proof.
  apply (AleezaStack_needs_free_paths [] "Site" None "/repo/bin"
           [(["Other"], Stack None)] ["Site"]
           match AleezaStack [] "Site" None "/repo/bin" [(["Other"], Stack None)] with
           | Ok (_, t') => t'
           | Throw _ => []
           end).
  vm_compute. reflexivity.
Defined.

Lemma run_keeps_paths_distinct scope id props __dirname t this t' :
  NoDup (paths t) →
  AleezaStack scope id props __dirname t = Ok (this, t') →
  NoDup (paths t').
Proof.
  intros Hnd (-> & Hfree & g & Hg & ->)%AleezaStack_inv.
  rewrite paths_app, (AleezaStack_paths _ _ _ _ _ _ Hg).
  apply NoDup_app. split_and!; [done| |apply stack_paths_NoDup].
  intros p Hp Hstack. rewrite Forall_forall in Hfree. by apply (Hfree p).
Qed.

(** X3: a successful run keeps the paths of the app pairwise distinct. *)
Theorem AleezaStack_NoDup scope id props __dirname t this t' :
  NoDup (paths t) →
  AleezaStack scope id props __dirname t = Ok (this, t') →
  NoDup (paths t').
Proof. apply run_keeps_paths_distinct. Qed.

Lemma AleezaStack_NoDup_witness :
  NoDup (paths
    match AleezaStack [] "Site" None "/repo/bin" [(["Other"], Stack None)] with
    | Ok (_, t') => t'
    | Throw _ => []
    end).
Proof.
  apply (AleezaStack_NoDup [] "Site" None "/repo/bin" [(["Other"], Stack None)] ["Site"]).
  - apply NoDup_singleton.
  - vm_compute. reflexivity.
Defined.

(** X4: after a successful run, each of the five paths resolves to the
    construct the constructor registered under it, whatever else the app
    holds. *)
Theorem AleezaStack_registers scope id props __dirname t this t' :
  AleezaStack scope id props __dirname t = Ok (this, t') →
  resolve this t' = Some (Stack props) ∧
  resolve (this ++ ["WebsiteBucket"]) t' = Some (Bucket website_bucket_props) ∧
  resolve (this ++ ["WebsiteFiles"]) t'
    = Some (BucketDeployment
              (website_files_props (this ++ ["WebsiteBucket"]) __dirname)) ∧
  resolve (this ++ ["WebsiteACL"]) t' = Some (CfnWebACL webAcl_props) ∧
  resolve (this ++ ["WebsiteDistribution"]) t'
    = Some (Distribution
              (distribution_props (this ++ ["WebsiteBucket"]) (this ++ ["WebsiteACL"]))).
Proof.
  intros (-> & Hfree & g & Hg & ->)%AleezaStack_inv.
  set (this := scope ++ [sanitizeId id]) in *.
  assert (NoDup (paths g)) as Hnd.
  { rewrite (AleezaStack_paths _ _ _ _ _ _ Hg). apply stack_paths_NoDup. }
  rewrite AleezaStack_Ok in Hg. fold this in Hg. injection Hg as <-.
  unfold stack_paths in Hfree.
  apply Forall_cons in Hfree as [H0 Hfree].
  apply Forall_cons in Hfree as [H1 Hfree].
  apply Forall_cons in Hfree as [H2 Hfree].
  apply Forall_cons in Hfree as [H3 Hfree].
  apply Forall_cons in Hfree as [H4 _].
  rewrite !resolve_app_r by assumption.
  split_and!; (apply resolve_elem_of; [exact Hnd|in_graph]).
Qed.

Lemma AleezaStack_registers_witness :
  resolve ["Site"; "WebsiteBucket"]
    match AleezaStack [] "Site" None "/repo/bin" [(["Other"], Stack None)] with
    | Ok (_, t') => t'
    | Throw _ => []
    end = Some (Bucket website_bucket_props).
Proof.
  apply (AleezaStack_registers [] "Site" None "/repo/bin" [(["Other"], Stack None)] ["Site"]).
  vm_compute. reflexivity.
Defined.

(** X5: a successful run leaves every construct the app already held
    resolving as before. *)
Theorem AleezaStack_preserves scope id props __dirname t this t' p :
  AleezaStack scope id props __dirname t = Ok (this, t') →
  p ∈ paths t →
  resolve p t' = resolve p t.
Proof.
  intros (_ & _ & g & _ & ->)%AleezaStack_inv Hp. by apply resolve_app_l.
Qed.

Lemma AleezaStack_preserves_witness :
  resolve ["Other"]
    match AleezaStack [] "Site" None "/repo/bin" [(["Other"], Stack None)] with
    | Ok (_, t') => t'
    | Throw _ => []
    end = resolve ["Other"] [(["Other"], Stack None)].
Proof.
  apply (AleezaStack_preserves [] "Site" None "/repo/bin" [(["Other"], Stack None)] ["Site"]).
  - vm_compute. reflexivity.
  - apply list_elem_of_here.
Defined.

(** X6: after a successful instantiation directly under the app, a second
    one with the same id throws the duplicate-name error of the app,
    whatever props and directory it is given. *)
Theorem AleezaStack_same_id_throws id props __dirname t this t' props' __dirname' :
  AleezaStack [] id props __dirname t = Ok (this, t') →
  AleezaStack [] id props' __dirname' t'
    = Throw ("There is already a Construct with name '" +:+ sanitizeId id +:+ "' in App").
Proof.
  intros (-> & _ & g & Hg & ->)%AleezaStack_inv.
  unfold AleezaStack, bind, new_construct at 1.
  rewrite decide_True; [done|].
  rewrite paths_app, (AleezaStack_paths _ _ _ _ _ _ Hg).
  apply elem_of_app. right. apply list_elem_of_here.
Qed.

Lemma AleezaStack_same_id_throws_witness :
  AleezaStack [] "Site" (Some {| cdk.env := None; cdk.tags := []; cdk.stackName := None |})
    "/elsewhere"
    match AleezaStack [] "Site" None "/repo/bin" [] with
    | Ok (_, t') => t'
    | Throw _ => []
    end
  = Throw "There is already a Construct with name 'Site' in App".
Proof.
  apply (AleezaStack_same_id_throws "Site" None "/repo/bin" [] ["Site"]).
  vm_compute. reflexivity.
Defined.

(** X7: when two stacks are instantiated one after the other under the
    same scope and both instantiations succeed, the two stacks have
    different paths, all paths are pairwise distinct, and each distribution
    and each sync step refers to the bucket and the policy set of its own
    stack. *)
Theorem two_stacks_coexist scope id1 id2 props1 props2 dir1 dir2 this1 t1 this2 t2 :
  AleezaStack scope id1 props1 dir1 [] = Ok (this1, t1) →
  AleezaStack scope id2 props2 dir2 t1 = Ok (this2, t2) →
  this1 ≠ this2 ∧
  NoDup (paths t2) ∧
  (∀ d dp, (d, Distribution dp) ∈ t2 →
     ∃ this, this ∈ [this1; this2] ∧
       d = this ++ ["WebsiteDistribution"] ∧
       cloudfront.origin (cloudfront.defaultBehavior dp)
         = cf_origins.S3BucketOrigin.withOriginAccessControl (this ++ ["WebsiteBucket"]) ∧
       cloudfront.webAclId dp = wafv2.attrArn (this ++ ["WebsiteACL"])) ∧
  (∀ f step, (f, BucketDeployment step) ∈ t2 →
     ∃ this, this ∈ [this1; this2] ∧
       f = this ++ ["WebsiteFiles"] ∧
       s3_deployment.destinationBucket step = this ++ ["WebsiteBucket"]).
Proof.
  intros H1 H2.
  assert (NoDup (paths t2)) as Hnd.
  { eapply run_keeps_paths_distinct; [|exact H2].
    eapply run_keeps_paths_distinct; [|exact H1]. constructor. }
  pose proof H2 as (_ & Hfree & g2 & Hg2 & ->)%AleezaStack_inv.
  assert (this1 ∈ paths t1) as Hin1.
  { rewrite AleezaStack_Ok in H1. injection H1 as <- <-. apply list_elem_of_here. }
  assert (this1 ≠ this2) as Hne.
  { intros ->. apply Forall_cons in Hfree as [Hfree _]. by apply Hfree. }
  split; [exact Hne|]. split; [exact Hnd|].
  rewrite AleezaStack_Ok in H1. injection H1 as <- <-.
  rewrite AleezaStack_Ok in Hg2. injection Hg2 as <- <-.
  set (this1 := scope ++ [sanitizeId id1]) in *.
  set (this2 := scope ++ [sanitizeId id2]) in *.
  cbn [app]. split.
  - intros d dp Hd.
    repeat (apply elem_of_cons in Hd as [Hd|Hd]; [try discriminate Hd|]);
      [| |by apply elem_of_nil in Hd].
    + injection Hd as -> ->. exists this1. split; [in_graph|done].
    + injection Hd as -> ->. exists this2. split; [in_graph|done].
  - intros f step Hf.
    repeat (apply elem_of_cons in Hf as [Hf|Hf]; [try discriminate Hf|]);
      [| |by apply elem_of_nil in Hf].
    + injection Hf as -> ->. exists this1. split; [in_graph|done].
    + injection Hf as -> ->. exists this2. split; [in_graph|done].
Qed.

Lemma two_stacks_coexist_witness :
  NoDup (paths
    match AleezaStack [] "Green" None "/repo/bin"
            match AleezaStack [] "Blue" None "/repo/bin" [] with
            | Ok (_, t1) => t1
            | Throw _ => []
            end with
    | Ok (_, t2) => t2
    | Throw _ => []
    end).
Proof.
  apply (two_stacks_coexist [] "Blue" "Green" None None "/repo/bin" "/repo/bin"
           ["Blue"]
           match AleezaStack [] "Blue" None "/repo/bin" [] with
           | Ok (_, t1) => t1
           | Throw _ => []
           end
           ["Green"]).
  - vm_compute. reflexivity.
  - vm_compute. reflexivity.
Defined.

(** X8: among the constructs a successful run appends, whatever a construct
    refers to was appended before it and lies beneath the same stack: no
    reference dangles or leaves the stack. *)
Theorem references_declared_earlier scope id props __dirname t this t' :
  AleezaStack scope id props __dirname t = Ok (this, t') →
  ∃ g,
    t' = t ++ g ∧
    ∀ (i : nat) p r q,
      g !! i = Some (p, r) → q ∈ references r →
      ∃ (j : nat) r', (j < i)%nat ∧ g !! j = Some (q, r') ∧ this `prefix_of` q.
Proof.
  intros (-> & _ & g & Hg & ->)%AleezaStack_inv.
  exists g. split; [done|].
  rewrite AleezaStack_Ok in Hg. injection Hg as <-.
  set (this := scope ++ [sanitizeId id]).
  intros i p r q Hi Hq.
  destruct i as [|[|[|[|[|i]]]]]; simpl in Hi; try done;
    injection Hi as <- <-; simpl in Hq.
  - by apply elem_of_nil in Hq.
  - by apply elem_of_nil in Hq.
  - apply list_elem_of_singleton in Hq as ->.
    exists 1%nat, (Bucket website_bucket_props). split_and!; [lia|done|by eexists].
  - by apply elem_of_nil in Hq.
  - apply elem_of_cons in Hq as [->|Hq].
    + exists 1%nat, (Bucket website_bucket_props). split_and!; [lia|done|by eexists].
    + apply list_elem_of_singleton in Hq as ->.
      exists 3%nat, (CfnWebACL webAcl_props). split_and!; [lia|done|by eexists].
Qed.

Lemma references_declared_earlier_witness :
  ∃ g,
    match AleezaStack [] "Site" None "/repo/bin" [(["Other"], Stack None)] with
    | Ok (_, t') => t'
    | Throw _ => []
    end = [(["Other"], Stack None)] ++ g.
Proof.
  destruct (references_declared_earlier [] "Site" None "/repo/bin"
              [(["Other"], Stack None)] ["Site"]
              match AleezaStack [] "Site" None "/repo/bin" [(["Other"], Stack None)] with
              | Ok (_, t') => t'
              | Throw _ => []
              end) as (g & Hg & _).
  - vm_compute. reflexivity.
  - by exists g.
Defined.

(** X9: the props passed to the stack reach the stack node only, and the
    directory of the source file reaches only the source of the sync step.
    Of two successful runs in fresh apps under the same scope and id, each
    stack node holds the props of its run; each sync step has the dist
    directory beside the directory of its run as its one source and is
    otherwise the same step; and every other construct is the same. *)
Theorem inputs_reach_two_constructs scope id props1 props2 dir1 dir2 this1 g1 this2 g2 :
  AleezaStack scope id props1 dir1 [] = Ok (this1, g1) →
  AleezaStack scope id props2 dir2 [] = Ok (this2, g2) →
  this1 = this2 ∧
  paths g1 = paths g2 ∧
  resolve this1 g1 = Some (Stack props1) ∧
  resolve this1 g2 = Some (Stack props2) ∧
  (∃ step1 step2,
     resolve (this1 ++ ["WebsiteFiles"]) g1 = Some (BucketDeployment step1) ∧
     resolve (this1 ++ ["WebsiteFiles"]) g2 = Some (BucketDeployment step2) ∧
     s3_deployment.sources step1
       = [s3_deployment.Source.asset (path.join [dir1; ".."; "dist"])] ∧
     s3_deployment.sources step2
       = [s3_deployment.Source.asset (path.join [dir2; ".."; "dist"])] ∧
     s3_deployment.destinationBucket step1 = s3_deployment.destinationBucket step2 ∧
     s3_deployment.prune step1 = s3_deployment.prune step2 ∧
     s3_deployment.retainOnDelete step1 = s3_deployment.retainOnDelete step2) ∧
  ∀ p, p ≠ this1 → p ≠ this1 ++ ["WebsiteFiles"] → resolve p g1 = resolve p g2.
Proof.
  intros H1 H2.
  pose proof (AleezaStack_paths _ _ _ _ _ _ H1) as P1.
  pose proof (AleezaStack_paths _ _ _ _ _ _ H2) as P2.
  assert (NoDup (paths g1)) as N1 by (rewrite P1; apply stack_paths_NoDup).
  assert (NoDup (paths g2)) as N2 by (rewrite P2; apply stack_paths_NoDup).
  rewrite AleezaStack_Ok in H1, H2.
  injection H1 as <- <-. injection H2 as <- <-.
  set (this := scope ++ [sanitizeId id]) in *.
  split; [reflexivity|]. split; [by rewrite P1, P2|].
  split; [apply resolve_elem_of; [exact N1|in_graph]|].
  split; [apply resolve_elem_of; [exact N2|in_graph]|].
  split.
  - eexists _, _.
    split; [apply resolve_elem_of; [exact N1|in_graph]|].
    split; [apply resolve_elem_of; [exact N2|in_graph]|].
    by split_and!.
  - intros p Hstack Hfiles. cbn [resolve].
    rewrite !(decide_False (P := this = p)) by done.
    rewrite !(decide_False (P := this ++ ["WebsiteFiles"] = p)) by done.
    reflexivity.
Qed.

Lemma inputs_reach_two_constructs_witness :
  resolve ["Site"; "WebsiteDistribution"]
    match AleezaStack [] "Site" None "/repo/bin" [] with
    | Ok (_, g) => g
    | Throw _ => []
    end
  = resolve ["Site"; "WebsiteDistribution"]
      match AleezaStack [] "Site"
              (Some {| cdk.env := None; cdk.tags := [("Team", "web")];
                       cdk.stackName := None |})
              "/elsewhere/bin" [] with
      | Ok (_, g) => g
      | Throw _ => []
      end.
Proof.
  apply (inputs_reach_two_constructs [] "Site" None
           (Some {| cdk.env := None; cdk.tags := [("Team", "web")];
                    cdk.stackName := None |})
           "/repo/bin" "/elsewhere/bin" ["Site"] _ ["Site"]).
  - vm_compute. reflexivity.
  - vm_compute. reflexivity.
  - discriminate.
  - discriminate.
Defined.

(** ** The asset directory *)

Lemma split_nonempty s : path.split s ≠ [].
Proof.
  destruct s as [|c s]; simpl; [done|].
  case_decide; [done|]. by destruct (path.split s).
Qed.

(** A string without separator, followed by a separator and more, splits
    into that string and the segments of the rest. *)
Lemma split_segment seg rest :
  path.split seg = [seg] →
  path.split (seg +:+ "/" +:+ rest) = seg :: path.split rest.
Proof.
  induction seg as [|c seg IH]; intros Hseg.
  - reflexivity.
  - simpl in Hseg |- *. case_decide as Hc; [done|].
    destruct (path.split seg) as [|s0 segs] eqn:Hsplit;
      [by apply split_nonempty in Hsplit|].
    injection Hseg as -> ->. by rewrite IH.
Qed.

Lemma split_join_segments segs :
  segs ≠ [] →
  Forall (λ seg, path.split seg = [seg]) segs →
  path.split (path.join_segments segs) = segs.
Proof.
  induction segs as [|seg segs IH]; [done|]. intros _ Hsegs.
  apply Forall_cons in Hsegs as [Hseg Hsegs].
  destruct segs as [|seg' segs]; [exact Hseg|].
  change (path.join_segments (seg :: seg' :: segs))
    with (seg +:+ "/" +:+ path.join_segments (seg' :: segs)).
  rewrite split_segment by done. f_equal. by apply IH.
Qed.

Lemma normalize_plain abs acc segs rest :
  Forall plain_segment segs →
  path.normalize_segments abs acc (segs ++ rest)
  = path.normalize_segments abs (rev segs ++ acc) rest.
Proof.
  revert acc. induction segs as [|seg segs IH]; intros acc Hsegs; [done|].
  apply Forall_cons in Hsegs as [(_ & H0 & H1 & H2) Hsegs].
  cbn [app path.normalize_segments].
  rewrite !decide_False by done. rewrite IH by done.
  cbn [rev]. by rewrite <- app_assoc.
Qed.

(** X10: when the source file lies in a directory [dir] of an absolute
    path whose segments need no normalization, the asset directory the
    constructor computes is the [dist] directory beside [dir]. *)
Theorem asset_directory_is_sibling_dist (parent : list string) (dir : string) :
  Forall plain_segment parent →
  plain_segment dir →
  path.join [ "/" +:+ path.join_segments (parent ++ [dir]); ".."; "dist" ]
  = "/" +:+ path.join_segments (parent ++ ["dist"]).
Proof.
  intros Hparent Hdir. unfold path.join.
  assert (Forall (λ seg, path.split seg = [seg]) (parent ++ [dir])) as Hsplit.
  { apply Forall_app. split.
    - eapply Forall_impl; [exact Hparent|]. by intros seg [? _].
    - apply Forall_singleton. by destruct Hdir. }
  assert (parent ++ [dir] ≠ []) as Hne by (by destruct parent).
  cbn [filter list_filter]. rewrite !decide_True by done.
  cbn [path.is_absolute append mbind list_bind].
  change (path.split ("/" +:+ ?s)) with ("" :: path.split s).
  rewrite split_join_segments by done.
  change (path.split "..") with [".."]. change (path.split "dist") with ["dist"].
  cbn [app path.normalize_segments]. rewrite decide_True by done.
  rewrite <- !app_assoc. rewrite normalize_plain by done.
  destruct Hdir as (_ & D0 & D1 & D2).
  cbn [app path.normalize_segments].
  rewrite (decide_False (P := dir = "")), (decide_False (P := dir = ".")),
    (decide_False (P := dir = "..")) by done.
  rewrite (decide_False (P := ".." = "")), (decide_False (P := ".." = ".")),
    (decide_True (P := ".." = "..")) by done.
  rewrite (decide_False (P := dir = "..")) by done.
  rewrite (decide_False (P := "dist" = "")), (decide_False (P := "dist" = ".")),
    (decide_False (P := "dist" = "..")) by done.
  cbn [rev]. rewrite app_nil_r, rev_involutive.
  by destruct (parent ++ ["dist"]).
Qed.

Lemma asset_directory_is_sibling_dist_witness :
  path.join [ "/home/site/bin"; ".."; "dist" ] = "/home/site/dist".
Proof.
  apply (asset_directory_is_sibling_dist ["home"; "site"] "bin").
  - repeat constructor; done.
  - repeat constructor; done.
Defined.

(** ** Consistency across the declaration *)

(** X11: the default root object of the distribution is the index document
    of the bucket, and the asset directory the sync step uploads, computed
    from the directory of the source file, holds a file of that name in the
    repository. *)
Theorem root_document_is_deployed id props :
  ∃ g b bp f step d dp dir,
    synth id props (path.dirname entry.file_name) = Ok g ∧
    buckets g = [(b, bp)] ∧
    deployments g = [(f, step)] ∧
    distributions g = [(d, dp)] ∧
    cloudfront.defaultRootObject dp = s3.websiteIndexDocument bp ∧
    s3_deployment.sources step = [s3_deployment.Source.asset dir] ∧
    dir +:+ "/" +:+ cloudfront.defaultRootObject dp ∈ entry.repository_files.
Proof.
  eexists _, _, _, _, _, _, _, _. split; [apply synth_Ok|].
  split_and!; try reflexivity.
  vm_compute. in_graph.
Qed.

(** X12: within the declared policy set the rule names are pairwise
    distinct, the metric names of the set and of its rules are pairwise
    distinct, no managed group is referenced twice, and every rule is named
    after the AWS group it references. *)
Theorem rule_names_consistent id props __dirname :
  ∃ g a acl,
    synth id props __dirname = Ok g ∧
    web_acls g = [(a, acl)] ∧
    NoDup (wafv2.Rule.name <$> wafv2.rules acl) ∧
    NoDup (wafv2.VisibilityConfig.metricName (wafv2.visibilityConfig acl)
           :: ((λ r, wafv2.VisibilityConfig.metricName (wafv2.Rule.visibilityConfig r))
                 <$> wafv2.rules acl)) ∧
    NoDup (wafv2.Rule.statement <$> wafv2.rules acl) ∧
    Forall (λ r,
        match wafv2.Rule.statement r with
        | wafv2.Statement.managedRuleGroupStatement s =>
            wafv2.ManagedRuleGroupStatement.vendorName s = "AWS" ∧
            wafv2.Rule.name r = "AWS-" +:+ wafv2.ManagedRuleGroupStatement.name s
        end) (wafv2.rules acl).
Proof.
  eexists _, [sanitizeId id; "WebsiteACL"], webAcl_props.
  split; [apply synth_Ok|]. split; [reflexivity|].
  split_and!.
  - apply (bool_decide_unpack _). vm_compute. exact I.
  - apply (bool_decide_unpack _). vm_compute. exact I.
  - apply (bool_decide_unpack _). vm_compute. exact I.
  - simpl. by repeat constructor.
Qed.

(** ** The bindings of the entry file *)

(** A list has no duplicates exactly when its elements are pairwise
    distinct. *)
Lemma duplicates_nil names : duplicates names = [] ↔ NoDup names.
Proof.
  induction names as [|n names IH]; simpl.
  - split; [constructor|done].
  - case_decide as Hn.
    + split; [done|]. intros [Hnot _]%NoDup_cons. done.
    + rewrite IH. split; [by constructor|]. by intros [_ ?]%NoDup_cons.
Qed.

(** X13: the imports of the source file bind the namespace alias [cdk]
    twice, so its local names are not pairwise distinct; every other name is
    bound once. *)
Theorem cdk_bound_twice :
  duplicates (bound_names entry.source) = ["cdk"] ∧
  ¬ NoDup (bound_names entry.source) ∧
  NoDup (filter (λ n, n ≠ "cdk") (bound_names entry.source)).
Proof.
  split_and!.
  - vm_compute. reflexivity.
  - intros Hnd%duplicates_nil. vm_compute in Hnd. discriminate Hnd.
  - apply (bool_decide_unpack _). vm_compute. exact I.
Qed.
